(** * Edit Helper plugin (src/main.ts): marker-aware line commands and the
    idle scheduler, embedded from the TypeScript source.

    The source file carries several revisions of the plugin.  The embedding
    follows the last one (the revision with [PLUGIN_CONSTANTS] and the
    settings tab); [Module V011] holds the parts of revision 0.1.1 that
    differ and that a statement below refers to. *)

From stdpp Require Import base option list strings pretty gmap fin_maps.
From Stdlib Require Import ZArith NArith Lia ZifyBool ZifyN.

Local Open Scope Z_scope.
Local Set Warnings "-register-all".

(* ===================================================================== *)
(** ** JavaScript strings *)
(* ===================================================================== *)

(** A JavaScript string is a sequence of UTF-16 code units; [length] and the
    editor's [ch] columns count code units. *)
Abbreviation jsstring := (list N).

(** A source literal made of ASCII characters. *)
Definition js (s : string) : jsstring :=
  (λ a, N.of_nat (Ascii.nat_of_ascii a)) <$> String.list_ascii_of_string s.

(** The code units matched by [\s] in a regular expression; they are also
    the ones [String.prototype.trim] strips (WhiteSpace and LineTerminator
    of ECMAScript). *)
Definition is_white (u : N) : bool :=
  ((9 <=? u) && (u <=? 13) || (u =? 32) || (u =? 160) || (u =? 5760)
   || (8192 <=? u) && (u <=? 8202) || (u =? 8232) || (u =? 8233)
   || (u =? 8239) || (u =? 8287) || (u =? 12288) || (u =? 65279))%N.

(** The code units matched by [\d]: ASCII digits only. *)
Definition is_digit (u : N) : bool := ((48 <=? u) && (u <=? 57))%N.

Fixpoint drop_while (p : N → bool) (s : jsstring) : jsstring :=
  match s with
  | [] => []
  | u :: s' => if p u then drop_while p s' else s
  end.

Fixpoint take_while (p : N → bool) (s : jsstring) : jsstring :=
  match s with
  | [] => []
  | u :: s' => if p u then u :: take_while p s' else []
  end.

(** [String.prototype.trim]: white space removed at both ends. *)
Definition trim (s : jsstring) : jsstring :=
  reverse (drop_while is_white (reverse (drop_while is_white s))).

(** [===] on two strings. *)
Definition str_eqb (a b : jsstring) : bool := bool_decide (a = b).

(* ===================================================================== *)
(** ** Regular expressions: the fragment used by OUTLINER_MARKER_REGEX *)
(* ===================================================================== *)

Inductive CharClass :=
| ClsWhite                      (* \s *)
| ClsDigit                      (* \d *)
| ClsOneOf (us : list N).       (* a literal character or a [...] set *)

Definition in_class (c : CharClass) (u : N) : bool :=
  match c with
  | ClsWhite => is_white u
  | ClsDigit => is_digit u
  | ClsOneOf us => bool_decide (u ∈ us)
  end.

Inductive Regex :=
| RChar (c : CharClass)         (* one character of the class *)
| RStar (c : CharClass)         (* c*, greedy *)
| RPlus (c : CharClass)         (* c+, greedy *)
| RSeq (r1 r2 : Regex)
| RAlt (r1 r2 : Regex).         (* r1|r2, left alternative first *)

(** Greedy repetition with backtracking: the longest run is tried first, and
    a shorter one only when the continuation [k] fails. *)
Fixpoint star_match (c : CharClass) (s : jsstring)
    (k : jsstring → option jsstring) : option jsstring :=
  match s with
  | u :: s' =>
      if in_class c u then
        match star_match c s' k with
        | Some rest => Some rest
        | None => k s
        end
      else k s
  | [] => k []
  end.

(** Backtracking matcher in continuation-passing style; the result is the
    part of the input left after the match. *)
Fixpoint rmatch (r : Regex) (s : jsstring)
    (k : jsstring → option jsstring) : option jsstring :=
  match r with
  | RChar c =>
      match s with
      | u :: s' => if in_class c u then k s' else None
      | [] => None
      end
  | RStar c => star_match c s k
  | RPlus c =>
      match s with
      | u :: s' => if in_class c u then star_match c s' k else None
      | [] => None
      end
  | RSeq r1 r2 => rmatch r1 s (λ s', rmatch r2 s' k)
  | RAlt r1 r2 =>
      match rmatch r1 s k with
      | Some rest => Some rest
      | None => rmatch r2 s k
      end
  end.

(** [str.match(re)] for a regular expression that starts with [^] and has
    neither the [g] nor the [m] flag: the only possible start is index 0,
    and element [0] of the result is the matched prefix. *)
Definition match_anchored (r : Regex) (s : jsstring) : option jsstring :=
  rest ← rmatch r s Some;
  Some (take (length s - length rest)%nat s).

Definition hash : N := 35.    (* '#' *)
Definition dash : N := 45.    (* '-' *)
Definition star : N := 42.    (* '*' *)
Definition dot : N := 46.     (* '.' *)

(** [/^\s*(#+\s|[-*]\s|\d+\.\s)/] *)
Definition OUTLINER_MARKER_REGEX : Regex :=
  RSeq (RStar ClsWhite)
    (RAlt (RSeq (RPlus (ClsOneOf [hash])) (RChar ClsWhite))
       (RAlt (RSeq (RChar (ClsOneOf [dash; star])) (RChar ClsWhite))
          (RSeq (RPlus ClsDigit)
             (RSeq (RChar (ClsOneOf [dot])) (RChar ClsWhite))))).

(** [lineContent.match(PLUGIN_CONSTANTS.OUTLINER_MARKER_REGEX)], reduced to
    [markerMatch[0]] ([None] for a [null] result). *)
Definition marker_match (lineContent : jsstring) : option jsstring :=
  match_anchored OUTLINER_MARKER_REGEX lineContent.


(* ===================================================================== *)
(** ** The host editor *)
(* ===================================================================== *)

Record EditorPosition := { line : nat; ch : nat }.

(** The part of the host editor the commands touch: the lines of the
    document and the selection (anchor and head; the cursor is the head, and
    nothing is selected when both coincide). *)
Record Editor := {
  doc : list jsstring;
  sel_anchor : EditorPosition;
  sel_head : EditorPosition
}.

Definition pos_eqb (p q : EditorPosition) : bool :=
  (line p =? line q)%nat && (ch p =? ch q)%nat.

(** Document order on positions. *)
Definition pos_leb (p q : EditorPosition) : bool :=
  (line p <? line q)%nat || ((line p =? line q)%nat && (ch p <=? ch q)%nat).

(** [editor.getCursor()]: the head of the selection. *)
Definition getCursor (e : Editor) : EditorPosition := sel_head e.

(** [editor.getCursor('to')]: the end of the selection in document order. *)
Definition getCursor_to (e : Editor) : EditorPosition :=
  if pos_leb (sel_anchor e) (sel_head e) then sel_head e else sel_anchor e.

Definition somethingSelected (e : Editor) : bool :=
  negb (pos_eqb (sel_anchor e) (sel_head e)).

Definition getLine (e : Editor) (n : nat) : jsstring := default [] (doc e !! n).

(** [editor.setLine(n, text)] replaces the text of line [n].  Where the host
    leaves the selection after the replacement is not modelled: both callers
    follow [setLine] with [setCursor], which overwrites it. *)
Definition setLine (e : Editor) (n : nat) (text : jsstring) : Editor :=
  {| doc := <[n := text]> (doc e);
     sel_anchor := sel_anchor e; sel_head := sel_head e |}.

(** [editor.setCursor(pos)]: an empty selection at [pos]. *)
Definition setCursor (e : Editor) (pos : EditorPosition) : Editor :=
  {| doc := doc e; sel_anchor := pos; sel_head := pos |}.

(** [editor.setSelection(anchor, head)]. *)
Definition setSelection (e : Editor) (anchor head : EditorPosition) : Editor :=
  {| doc := doc e; sel_anchor := anchor; sel_head := head |}.

(** The cursor is on a line of the document. *)
Definition cursor_in_doc (e : Editor) : Prop :=
  (line (getCursor e) < length (doc e))%nat.

(* ===================================================================== *)
(** ** Editor commands *)
(* ===================================================================== *)

(** Command [empty-current-line-content-except-marker]. *)
Definition empty_current_line_content_except_marker (editor : Editor) : Editor :=
  let cursor := getCursor editor in
  let currentLineNumber := line cursor in
  let lineContent := getLine editor currentLineNumber in
  match marker_match lineContent with
  | Some marker =>
      if str_eqb (trim lineContent) (trim marker) then
        editor                                   (* just a marker: return *)
      else
        setCursor (setLine editor currentLineNumber marker)
          {| line := currentLineNumber; ch := length marker |}
  | None =>
      setCursor (setLine editor currentLineNumber [])
        {| line := currentLineNumber; ch := 0 |}
  end.

(** Command [clear-current-line-for-new-format]. *)
Definition clear_current_line_for_new_format (editor : Editor) : Editor :=
  let cursor := getCursor editor in
  let currentLineNumber := line cursor in
  setCursor (setLine editor currentLineNumber [])
    {| line := currentLineNumber; ch := 0 |}.

(** Command [select-current-line-or-cancel]. *)
Definition select_current_line_or_cancel (editor : Editor) : Editor :=
  if somethingSelected editor then
    let selectionEnd := getCursor_to editor in
    setCursor editor selectionEnd
  else
    let cursor := getCursor editor in
    let currentLine := line cursor in
    let lineContent := getLine editor currentLine in
    let startCh :=
      match marker_match lineContent with
      | Some m => length m
      | None => 0%nat
      end in
    let from := {| line := currentLine; ch := startCh |} in
    let to := {| line := currentLine; ch := length lineContent |} in
    setSelection editor from to.

(** An editor holding one line, with the cursor at column [c] and nothing
    selected. *)
Definition one_line (s : jsstring) (c : nat) : Editor :=
  {| doc := [s]; sel_anchor := {| line := 0; ch := c |};
     sel_head := {| line := 0; ch := c |} |}.

(* ===================================================================== *)
(** ** Settings *)
(* ===================================================================== *)

(** Values that [loadData] can resolve to: the parsed content of the
    plugin's data file, or [null] when there is none.  Numbers are kept to
    the integers. *)
Inductive JsValue :=
| JNull
| JBool (b : bool)
| JNumber (z : Z)
| JString (s : string)
| JArray (items : list JsValue)
| JObject (props : gmap string JsValue).

(** The interface [EditHelperPluginSettings], as the scheduler reads it. *)
Record EditHelperPluginSettings := { idleTimeoutMs : Z }.

Definition DEFAULT_SETTINGS : gmap string JsValue :=
  {[ "idleTimeoutMs"%string := JNumber 60000 ]}.

(** The own enumerable properties [Object.assign] copies from a source:
    none for [null], a boolean or a number; the properties of an object; the
    elements of an array and the characters of a string under their
    indices. *)
Definition own_props (v : JsValue) : gmap string JsValue :=
  match v with
  | JNull | JBool _ | JNumber _ => ∅
  | JString s =>
      list_to_map
        (imap (λ i a, (pretty i, JString (String a EmptyString)))
           (String.list_ascii_of_string s))
  | JArray items => list_to_map (imap (λ i x, (pretty i, x)) items)
  | JObject props => props
  end.

(** [Object.assign(target, ...sources)]: the sources are copied in order,
    a later property replacing an earlier one of the same name. *)
Definition object_assign (target : gmap string JsValue)
    (sources : list JsValue) : gmap string JsValue :=
  foldl (λ t src, own_props src ∪ t) target sources.

(** [loadSettings]: [Object.assign({}, DEFAULT_SETTINGS, await this.loadData())]. *)
Definition loadSettings (data : JsValue) : gmap string JsValue :=
  object_assign ∅ [JObject DEFAULT_SETTINGS; data].

(** The settings object read through the interface; TypeScript does not
    check the loaded object, so the view exists only when the field holds a
    number. *)
Definition as_settings (o : gmap string JsValue) : option EditHelperPluginSettings :=
  match o !! "idleTimeoutMs"%string with
  | Some (JNumber z) => Some {| idleTimeoutMs := z |}
  | _ => None
  end.

(* ===================================================================== *)
(** ** The idle scheduler *)
(* ===================================================================== *)

(** A timer set through [window.setTimeout] with [scrollActiveLineToCenter]
    as its callback.  Handles are positive integers, so a handle stored in
    [idleTimeout] is always truthy and [null] is the only falsy content of
    that field. *)
Record Timer := { handle : positive; due : Z }.

Inductive Signal :=
| EditorChange        (* workspace 'editor-change' *)
| ActiveLeafChange    (* workspace 'active-leaf-change' *)
| KeyDown             (* document 'keydown' *)
| MouseDown           (* document 'mousedown' *)
| MouseMove.          (* document 'mousemove' *)

(** How [onload] registers [resetIdleTimer] for a signal. *)
Inductive Wiring :=
| Direct              (* the handler is resetIdleTimer itself *)
| Debounced.          (* the handler is debounce(resetIdleTimer, delay, true) *)

(** Who called [resetIdleTimer]. *)
Inductive Origin :=
| FromLoad
| FromToggle
| FromSettingTab
| FromSignal (s : Signal)
| FromDebounce.

(** The plugin instance together with the part of the host it acts on.
    Times are in milliseconds. *)
Record World := {
  clock : Z;                             (* the host's current time *)
  next_handle : positive;                (* next handle of window.setTimeout *)
  timers : list Timer;                   (* pending timers set by resetIdleTimer *)
  settings : EditHelperPluginSettings;   (* this.settings *)
  idleTimeout : option positive;         (* this.idleTimeout, None for null *)
  autoCenterEnabled : bool;              (* this.autoCenterEnabled *)
  debouncer : option Z;                  (* due time of the pending debounced call *)
  saving : nat;                          (* onChange handlers waiting in await saveSettings() *)
  loaded : bool;                         (* false once the plugin is unloaded *)
  scrolls : list Z;                      (* times scrollActiveLineToCenter ran, newest first *)
  resets : list (Z * Origin)             (* calls of resetIdleTimer, newest first *)
}.

(** [window.clearTimeout(h)]: the timer with handle [h], if pending, is
    dropped; any other handle is ignored. *)
Definition clearTimeout (h : positive) (w : World) : World :=
  {| clock := clock w; next_handle := next_handle w;
     timers := filter (λ t, handle t ≠ h) (timers w);
     settings := settings w; idleTimeout := idleTimeout w;
     autoCenterEnabled := autoCenterEnabled w; debouncer := debouncer w;
     saving := saving w; loaded := loaded w; scrolls := scrolls w;
     resets := resets w |}.

(** [this.idleTimeout = window.setTimeout(this.scrollActiveLineToCenter, delay)]:
    a fresh handle, a one-shot timer that is not delivered before
    [delay] milliseconds have passed. *)
Definition setTimeout_idle (delay : Z) (w : World) : World :=
  {| clock := clock w; next_handle := Pos.succ (next_handle w);
     timers := timers w ++ [{| handle := next_handle w;
                               due := clock w + Z.max 0 delay |}];
     settings := settings w; idleTimeout := Some (next_handle w);
     autoCenterEnabled := autoCenterEnabled w; debouncer := debouncer w;
     saving := saving w; loaded := loaded w; scrolls := scrolls w;
     resets := resets w |}.

(** [this.idleTimeout = null]. *)
Definition idleTimeout_null (w : World) : World :=
  {| clock := clock w; next_handle := next_handle w; timers := timers w;
     settings := settings w; idleTimeout := None;
     autoCenterEnabled := autoCenterEnabled w; debouncer := debouncer w;
     saving := saving w; loaded := loaded w; scrolls := scrolls w;
     resets := resets w |}.

(** The first statement of [resetIdleTimer] and the body of [onunload]:
    [if (this.idleTimeout) window.clearTimeout(this.idleTimeout)]. *)
Definition clear_idleTimeout (w : World) : World :=
  match idleTimeout w with
  | Some h => clearTimeout h w
  | None => w
  end.

(** [resetIdleTimer]. *)
Definition resetIdleTimer (w : World) : World :=
  let w1 := clear_idleTimeout w in
  if autoCenterEnabled w1 && (0 <? idleTimeoutMs (settings w1)) then
    setTimeout_idle (idleTimeoutMs (settings w1)) w1
  else
    idleTimeout_null w1.

(** [onunload]. *)
Definition onunload (w : World) : World := clear_idleTimeout w.

(** Field updates of the world. *)
Definition set_clock (t : Z) (w : World) : World :=
  {| clock := t; next_handle := next_handle w; timers := timers w;
     settings := settings w; idleTimeout := idleTimeout w;
     autoCenterEnabled := autoCenterEnabled w; debouncer := debouncer w;
     saving := saving w; loaded := loaded w; scrolls := scrolls w;
     resets := resets w |}.

Definition set_timers (ts : list Timer) (w : World) : World :=
  {| clock := clock w; next_handle := next_handle w; timers := ts;
     settings := settings w; idleTimeout := idleTimeout w;
     autoCenterEnabled := autoCenterEnabled w; debouncer := debouncer w;
     saving := saving w; loaded := loaded w; scrolls := scrolls w;
     resets := resets w |}.

Definition set_settings (st : EditHelperPluginSettings) (w : World) : World :=
  {| clock := clock w; next_handle := next_handle w; timers := timers w;
     settings := st; idleTimeout := idleTimeout w;
     autoCenterEnabled := autoCenterEnabled w; debouncer := debouncer w;
     saving := saving w; loaded := loaded w; scrolls := scrolls w;
     resets := resets w |}.

Definition set_autoCenterEnabled (b : bool) (w : World) : World :=
  {| clock := clock w; next_handle := next_handle w; timers := timers w;
     settings := settings w; idleTimeout := idleTimeout w;
     autoCenterEnabled := b; debouncer := debouncer w;
     saving := saving w; loaded := loaded w; scrolls := scrolls w;
     resets := resets w |}.

Definition set_debouncer (d : option Z) (w : World) : World :=
  {| clock := clock w; next_handle := next_handle w; timers := timers w;
     settings := settings w; idleTimeout := idleTimeout w;
     autoCenterEnabled := autoCenterEnabled w; debouncer := d;
     saving := saving w; loaded := loaded w; scrolls := scrolls w;
     resets := resets w |}.

Definition set_saving (n : nat) (w : World) : World :=
  {| clock := clock w; next_handle := next_handle w; timers := timers w;
     settings := settings w; idleTimeout := idleTimeout w;
     autoCenterEnabled := autoCenterEnabled w; debouncer := debouncer w;
     saving := n; loaded := loaded w; scrolls := scrolls w;
     resets := resets w |}.

Definition set_loaded (b : bool) (w : World) : World :=
  {| clock := clock w; next_handle := next_handle w; timers := timers w;
     settings := settings w; idleTimeout := idleTimeout w;
     autoCenterEnabled := autoCenterEnabled w; debouncer := debouncer w;
     saving := saving w; loaded := b; scrolls := scrolls w;
     resets := resets w |}.

Definition set_scrolls (l : list Z) (w : World) : World :=
  {| clock := clock w; next_handle := next_handle w; timers := timers w;
     settings := settings w; idleTimeout := idleTimeout w;
     autoCenterEnabled := autoCenterEnabled w; debouncer := debouncer w;
     saving := saving w; loaded := loaded w; scrolls := l;
     resets := resets w |}.

Definition set_resets (l : list (Z * Origin)) (w : World) : World :=
  {| clock := clock w; next_handle := next_handle w; timers := timers w;
     settings := settings w; idleTimeout := idleTimeout w;
     autoCenterEnabled := autoCenterEnabled w; debouncer := debouncer w;
     saving := saving w; loaded := loaded w; scrolls := scrolls w;
     resets := l |}.

(** [scrollActiveLineToCenter], the centering callback.  What it does to the
    active view (nothing when there is none) lies in the host; the world
    records that it ran, and when. *)
Definition scrollActiveLineToCenter (w : World) : World :=
  set_scrolls (clock w :: scrolls w) w.

(** The registrations and constants that differ between revisions. *)
Record Build := {
  reset_timer : World → World;        (* resetIdleTimer of the revision *)
  wiring : Signal → option Wiring;    (* handlers registered in onload *)
  debounce_delay : Z;                 (* DEBOUNCE_DELAY_MS *)
  setting_tab : bool                  (* the revision has a settings tab *)
}.

Definition DEBOUNCE_DELAY_MS : Z := 500.

(** The registrations of [onload]: only 'editor-change', through
    [debounce(this.resetIdleTimer, DEBOUNCE_DELAY_MS, true)]. *)
Definition registered (s : Signal) : option Wiring :=
  match s with
  | EditorChange => Some Debounced
  | ActiveLeafChange | KeyDown | MouseDown | MouseMove => None
  end.

Definition current : Build :=
  {| reset_timer := resetIdleTimer; wiring := registered;
     debounce_delay := DEBOUNCE_DELAY_MS; setting_tab := true |}.

(** Revision 0.1.1: a constant timeout and five registered signals. *)
Module V011.

Definition IDLE_TIMEOUT_MS : Z := 10000.
Definition DEBOUNCE_DELAY_MS : Z := 500.

Definition resetIdleTimer (w : World) : World :=
  let w1 := clear_idleTimeout w in
  if autoCenterEnabled w1 then setTimeout_idle IDLE_TIMEOUT_MS w1
  else idleTimeout_null w1.

Definition registered (s : Signal) : option Wiring :=
  match s with
  | EditorChange | ActiveLeafChange | KeyDown | MouseDown => Some Direct
  | MouseMove => Some Debounced
  end.

Definition build : Build :=
  {| reset_timer := resetIdleTimer; wiring := registered;
     debounce_delay := DEBOUNCE_DELAY_MS; setting_tab := false |}.

End V011.

(** What the host and the user can do next. *)
Inductive Event :=
| Elapse (dt : N)            (* dt milliseconds pass *)
| Activity (s : Signal)      (* the host raises an activity signal *)
| DebounceFire               (* the host delivers the debouncer's timer *)
| TimerFire                  (* the host delivers a due idle timer *)
| ToggleCommand              (* command toggle-auto-center-on-idle *)
| SliderChange (value : Z)   (* the slider's onChange, up to its await *)
| SaveDone                   (* saveSettings() resolved: onChange resumes *)
| Unload.                    (* the plugin is unloaded *)

(** A call of [resetIdleTimer], recorded with the time and the caller. *)
Definition call_reset (b : Build) (o : Origin) (w : World) : World :=
  let w' := reset_timer b w in
  set_resets ((clock w', o) :: resets w') w'.

(** The first due timer in the order of creation, and the timers left. *)
Fixpoint pop_due (now : Z) (ts : list Timer) : option (Timer * list Timer) :=
  match ts with
  | [] => None
  | t :: ts' =>
      if due t <=? now then Some (t, ts')
      else
        match pop_due now ts' with
        | Some (t', rest) => Some (t', t :: rest)
        | None => None
        end
  end.

(** The function returned by the host's [debounce(cb, delay, true)] was
    called.  [debounce] comes from the 'obsidian' module: the call of [cb]
    is made once, [delay] milliseconds after the last call of the returned
    function (with [resetTimer = true] every call restarts the wait).  The
    plugin keeps no reference to the returned function and never cancels
    it. *)
Definition debounced_call (b : Build) (w : World) : World :=
  set_debouncer (Some (clock w + debounce_delay b)) w.

(** One event.  After [Unload] the host has detached the event handlers,
    the commands and the settings tab; its timers and the suspended
    [onChange] handlers are still delivered.  The [Notice] shown by the
    toggle command is a display effect and leaves the state as it is. *)
Definition step (b : Build) (w : World) (e : Event) : World :=
  match e with
  | Elapse dt => set_clock (clock w + Z.of_N dt) w
  | Activity s =>
      if loaded w then
        match wiring b s with
        | Some Direct => call_reset b (FromSignal s) w
        | Some Debounced => debounced_call b w
        | None => w
        end
      else w
  | DebounceFire =>
      match debouncer w with
      | Some d =>
          if d <=? clock w then call_reset b FromDebounce (set_debouncer None w)
          else w
      | None => w
      end
  | TimerFire =>
      match pop_due (clock w) (timers w) with
      | Some (_, rest) => scrollActiveLineToCenter (set_timers rest w)
      | None => w
      end
  | ToggleCommand =>
      if loaded w then
        call_reset b FromToggle
          (set_autoCenterEnabled (negb (autoCenterEnabled w)) w)
      else w
  | SliderChange value =>
      if loaded w && setting_tab b then
        set_saving (S (saving w)) (set_settings {| idleTimeoutMs := value |} w)
      else w
  | SaveDone =>
      match saving w with
      | S n => call_reset b FromSettingTab (set_saving n w)
      | O => w
      end
  | Unload =>
      if loaded w then set_loaded false (onunload w) else w
  end.

Definition run (b : Build) (w : World) (es : list Event) : World :=
  foldl (step b) w es.

(** The instance before [onload]: [idleTimeout = null],
    [autoCenterEnabled = true]. *)
Definition fresh (t0 : Z) (h0 : positive) (st : EditHelperPluginSettings) : World :=
  {| clock := t0; next_handle := h0; timers := []; settings := st;
     idleTimeout := None; autoCenterEnabled := true; debouncer := None;
     saving := 0; loaded := true; scrolls := []; resets := [] |}.

(** [onload]: the settings are loaded, the handlers registered, and
    [resetIdleTimer] is called once. *)
Definition onload (b : Build) (t0 : Z) (h0 : positive)
    (st : EditHelperPluginSettings) : World :=
  call_reset b FromLoad (fresh t0 h0 st).

Definition from_debounce (o : Origin) : bool :=
  match o with
  | FromDebounce => true
  | _ => false
  end.

(** The times of the resets made through the debouncer, newest first. *)
Fixpoint debounced_times (l : list (Z * Origin)) : list Z :=
  match l with
  | [] => []
  | (t, o) :: l' =>
      if from_debounce o then t :: debounced_times l' else debounced_times l'
  end.

Definition debounced_resets (w : World) : list Z := debounced_times (resets w).

(** Consecutive times of a list (newest first) lie at least [d] apart. *)
Fixpoint spaced (d : Z) (l : list Z) : Prop :=
  match l with
  | t2 :: ((t1 :: _) as l') => t1 + d <= t2 /\ spaced d l'
  | _ => True
  end.

(* ===================================================================== *)
(** ** The marker as the specification words it *)
(* ===================================================================== *)

Definition space : N := 32.   (* ' ' *)

Definition is_space (u : N) : bool := (u =? space)%N.
Definition is_hash (u : N) : bool := (u =? hash)%N.

(** The text between the leading white space and the closing separator:
    one or more [#], or one [-] or [*], or one or more digits and a dot. *)
Inductive marker_body : jsstring → Prop :=
| body_heading (hs : jsstring) :
    hs ≠ [] → Forall (λ u, u = hash) hs → marker_body hs
| body_bullet (u : N) :
    u = dash ∨ u = star → marker_body [u]
| body_ordered (ds : jsstring) :
    ds ≠ [] → Forall (λ u, is_digit u = true) ds → marker_body (ds ++ [dot]).

(** [line] begins, after optional leading white space, with a marker body
    followed by one separator character accepted by [sep]; [m] is that
    prefix, leading white space included. *)
Definition marker_shape (sep : N → bool) (line m : jsstring) : Prop :=
  ∃ ws body u rest,
    line = ws ++ body ++ u :: rest ∧ m = ws ++ body ++ [u] ∧
    Forall (λ c, is_white c = true) ws ∧ marker_body body ∧ sep u = true.

(** The same reading as a function: [sep] decides which characters may
    close the marker ([is_space] for "followed by a space"). *)
Definition spec_marker_prefix (sep : N → bool) (l : jsstring) : option jsstring :=
  let ws := take_while is_white l in
  let s := drop_while is_white l in
  let close (body after : jsstring) :=
    match after with
    | u :: _ => if sep u then Some (ws ++ body ++ [u]) else None
    | [] => None
    end in
  match s with
  | [] => None
  | c :: s' =>
      if is_hash c then
        close (take_while is_hash s) (drop_while is_hash s)
      else if (c =? dash)%N || (c =? star)%N then
        close [c] s'
      else if is_digit c then
        match drop_while is_digit s with
        | d :: after =>
            if (d =? dot)%N then close (take_while is_digit s ++ [dot]) after
            else None
        | [] => None
        end
      else None
  end.

(** The three cases of the command [Empty current line content except
    marker] in the wording "the line is exactly the marker". *)
Definition empty_except_marker_exact_cases (e : Editor) : Prop :=
  let n := line (getCursor e) in
  let l := getLine e n in
  let e' := empty_current_line_content_except_marker e in
  match marker_match l with
  | Some m =>
      if bool_decide (l = m) then e' = e
      else getLine e' n = m ∧ getCursor e' = {| line := n; ch := length m |}
  | None => getLine e' n = [] ∧ getCursor e' = {| line := n; ch := 0 |}
  end.

(* ===================================================================== *)
(** ** Invariant and quiet periods of the scheduler *)
(* ===================================================================== *)

(** At most one idle timer is pending, it is the one [idleTimeout] names,
    and its handle is older than the next handle of the host. *)
Definition timers_ok (w : World) : Prop :=
  match timers w with
  | [] => True
  | [t] => idleTimeout w = Some (handle t) ∧ (handle t < next_handle w)%positive
  | _ => False
  end.

(** Events of a quiet period: time passes and the host delivers timers, but
    nothing calls [resetIdleTimer]. *)
Definition quiet (e : Event) : bool :=
  match e with
  | Elapse _ | TimerFire => true
  | _ => false
  end.

(** What the debouncer guarantees about the newest debounced reset: it lies
    in the past, and a pending debounced call is due at least [d] after it. *)
Definition debounce_ok (d : Z) (w : World) : Prop :=
  spaced d (debounced_resets w) ∧
  match debounced_resets w with
  | t :: _ => t <= clock w ∧ ∀ due', debouncer w = Some due' → t + d <= due'
  | [] => True
  end.

(** What the event machine needs from a revision's [resetIdleTimer]: it
    touches only the timer table and [idleTimeout], and it keeps the
    invariant. *)
Definition reset_sound (b : Build) : Prop :=
  ∀ w, let w' := reset_timer b w in
    (timers_ok w → timers_ok w') ∧
    clock w' = clock w ∧ settings w' = settings w ∧
    autoCenterEnabled w' = autoCenterEnabled w ∧ debouncer w' = debouncer w ∧
    saving w' = saving w ∧ loaded w' = loaded w ∧ scrolls w' = scrolls w ∧
    resets w' = resets w.

(* ===================================================================== *)
(** ** Commands of the earlier revisions *)
(* ===================================================================== *)

Definition newline : N := 10.   (* the line feed, '\n' *)

(** [lines.join('\n')]. *)
Fixpoint join_lines (ls : list jsstring) : jsstring :=
  match ls with
  | [] => []
  | l :: ls' =>
      match ls' with
      | [] => l
      | _ :: _ => l ++ newline :: join_lines ls'
      end
  end.

(** [s.split('\n')]: never empty, the empty string gives one empty line. *)
Fixpoint split_lines (s : jsstring) : list jsstring :=
  match s with
  | [] => [[]]
  | u :: s' =>
      if (u =? newline)%N then [] :: split_lines s'
      else
        match split_lines s' with
        | l :: ls => (u :: l) :: ls
        | [] => [[u]]
        end
  end.

(** [editor.getValue()]: the lines of the document joined by line feeds. *)
Definition getValue (e : Editor) : jsstring := join_lines (doc e).

(** [editor.setValue(text)]: the document becomes the lines of [text].  As
    for [setLine], the selection the host derives is overwritten by the
    [setCursor] that follows in the caller. *)
Definition setValue (e : Editor) (text : jsstring) : Editor :=
  {| doc := split_lines text;
     sel_anchor := sel_anchor e; sel_head := sel_head e |}.

(** A document as the host keeps it: at least one line, and no line feed
    inside a line. *)
Definition doc_ok (e : Editor) : Prop :=
  doc e ≠ [] ∧ Forall (λ l : jsstring, newline ∉ l) (doc e).

(** A position that lies in the document. *)
Definition pos_in_doc (e : Editor) (p : EditorPosition) : Prop :=
  ∃ l, doc e !! line p = Some l ∧ (ch p ≤ length l)%nat.

(** Revision 0.1.0 (the first of the two files of that revision), and the
    command [delete-current-line], which revisions 0.1.0 and 0.1.1 share. *)
Module V010.

(** Command [empty-current-line]. *)
Definition empty_current_line (editor : Editor) : Editor :=
  let cursor := getCursor editor in
  let currentLine := line cursor in
  setCursor (setLine editor currentLine [])
    {| line := currentLine; ch := 0 |}.

(** Command [delete-current-line]; [lines.splice(currentLine, 1)] removes
    the element at [currentLine] if there is one. *)
Definition delete_current_line (editor : Editor) : Editor :=
  let cursor := getCursor editor in
  let currentLine := line cursor in
  let lines := delete currentLine (split_lines (getValue editor)) in
  let newValue := join_lines lines in
  let editor1 := setValue editor newValue in
  if (currentLine <? length lines)%nat then
    setCursor editor1 {| line := currentLine; ch := 0 |}
  else if (0 <? length lines)%nat then
    let newLastLine := (length lines - 1)%nat in
    setCursor editor1
      {| line := newLastLine;
         ch := length (default [] (lines !! newLastLine)) |}
  else
    setCursor editor1 {| line := 0; ch := 0 |}.

(** Command [select-current-line]. *)
Definition select_current_line (editor : Editor) : Editor :=
  let cursor := getCursor editor in
  let currentLine := line cursor in
  let lineCount := length (doc editor) in
  let from := {| line := currentLine; ch := 0 |} in
  let to :=
    if (currentLine <? lineCount - 1)%nat then
      {| line := currentLine + 1; ch := 0 |}
    else
      {| line := currentLine; ch := length (getLine editor currentLine) |} in
  setSelection editor from to.

End V010.

(* ===================================================================== *)
(** ** Saving the settings, bursts of signals *)
(* ===================================================================== *)

(** [saveSettings]: [this.saveData(this.settings)]; the value handed to the
    host, which [loadData] returns at the next start. *)
Definition saveSettings (st : gmap string JsValue) : JsValue := JObject st.

(** [this.plugin.settings.idleTimeoutMs = value] on the settings object. *)
Definition assign_idleTimeoutMs (value : Z) (st : gmap string JsValue) :
    gmap string JsValue :=
  <[ "idleTimeoutMs"%string := JNumber value ]> st.

(** A burst of one signal: after each occurrence [dt] milliseconds pass and
    the host looks at the debouncer's timer. *)
Definition burst (s : Signal) (gaps : list N) : list Event :=
  gaps ≫= (λ dt, [Activity s; Elapse dt; DebounceFire]).

(** A pending idle timer stems from the newest call of [resetIdleTimer]:
    that call lies in the past, and, unless a change of the slider is still
    waiting for [saveSettings], the timer is due [idleTimeoutMs] after it. *)
Definition due_ok (w : World) : Prop :=
  ∀ t, t ∈ timers w →
    ∃ r o rest, resets w = (r, o) :: rest ∧ r <= clock w ∧
      (saving w = 0%nat →
         due t = r + idleTimeoutMs (settings w) ∧
         0 < idleTimeoutMs (settings w)).

(* ===================================================================== *)
(** * Properties *)
(* ===================================================================== *)

(** ** Strings and the marker parser *)

Example marker_match_samples :
  marker_match (js "# Title") = Some (js "# ") ∧
  marker_match (js "- item") = Some (js "- ") ∧
  marker_match (js "3. item") = Some (js "3. ") ∧
  marker_match (js "plain text") = None ∧
  marker_match (js "   ") = None ∧
  marker_match (js "# ") = Some (js "# ") ∧
  marker_match (js "  ## x") = Some (js "  ## ") ∧
  marker_match (js "12.") = None ∧
  marker_match (js "#x") = None.
Proof. vm_compute. repeat split. Qed.

Lemma take_drop_while (p : N → bool) (s : jsstring) :
  take_while p s ++ drop_while p s = s.
Proof.
  induction s as [|u s IH]; simpl; [done|].
  destruct (p u); simpl; [by rewrite IH | done].
Qed.

Lemma take_while_all (p : N → bool) (s : jsstring) :
  Forall (λ u, p u = true) (take_while p s).
Proof.
  induction s as [|u s IH]; simpl; [constructor|].
  destruct (p u) eqn:E; [by constructor | constructor].
Qed.

Lemma drop_while_head (p : N → bool) (s : jsstring) u s' :
  drop_while p s = u :: s' → p u = false.
Proof.
  induction s as [|v s IH]; simpl; [done|].
  destruct (p v) eqn:E; [done|]. intros [= -> _]. done.
Qed.

Lemma drop_while_app (p : N → bool) (a b : jsstring) :
  Forall (λ u, p u = true) a → drop_while p (a ++ b) = drop_while p b.
Proof.
  induction 1 as [|u a Hu _ IH]; simpl; [done|]. by rewrite Hu.
Qed.

Lemma take_while_app (p : N → bool) (a b : jsstring) :
  Forall (λ u, p u = true) a → take_while p (a ++ b) = a ++ take_while p b.
Proof.
  induction 1 as [|u a Hu _ IH]; simpl; [done|]. by rewrite Hu, IH.
Qed.

Lemma drop_while_stop (p : N → bool) u (s : jsstring) :
  p u = false → drop_while p (u :: s) = u :: s.
Proof. intros H. simpl. by rewrite H. Qed.

Lemma take_while_stop (p : N → bool) u (s : jsstring) :
  p u = false → take_while p (u :: s) = [].
Proof. intros H. simpl. by rewrite H. Qed.

Lemma white_not_marker_char u :
  is_white u = true →
  is_hash u = false ∧ (u =? dash)%N = false ∧ (u =? star)%N = false ∧
  (u =? dot)%N = false ∧ is_digit u = false.
Proof.
  unfold is_white, is_hash, is_digit, hash, dash, star, dot. intros H.
  repeat split; lia.
Qed.

Lemma drop_while_ext (p q : N → bool) (s : jsstring) :
  (∀ u, p u = q u) → drop_while p s = drop_while q s.
Proof.
  intros E. induction s as [|u s IH]; simpl; [done|]. by rewrite E, IH.
Qed.

Lemma take_while_ext (p q : N → bool) (s : jsstring) :
  (∀ u, p u = q u) → take_while p s = take_while q s.
Proof.
  intros E. induction s as [|u s IH]; simpl; [done|]. by rewrite E, IH.
Qed.

Lemma in_class_hash u : in_class (ClsOneOf [hash]) u = is_hash u.
Proof.
  unfold is_hash; simpl. destruct (N.eqb_spec u hash) as [->|Hne].
  - apply bool_decide_eq_true. rewrite !elem_of_cons, elem_of_nil. tauto.
  - apply bool_decide_eq_false. rewrite !elem_of_cons, elem_of_nil. tauto.
Qed.

Lemma in_class_bullet u :
  in_class (ClsOneOf [dash; star]) u = ((u =? dash)%N || (u =? star)%N).
Proof.
  simpl. destruct (N.eqb_spec u dash) as [->|Hd].
  - apply bool_decide_eq_true. rewrite !elem_of_cons, elem_of_nil. tauto.
  - destruct (N.eqb_spec u star) as [->|Hs].
    + apply bool_decide_eq_true. rewrite !elem_of_cons, elem_of_nil. tauto.
    + apply bool_decide_eq_false. rewrite !elem_of_cons, elem_of_nil. tauto.
Qed.

Lemma in_class_dot u : in_class (ClsOneOf [dot]) u = (u =? dot)%N.
Proof.
  simpl. destruct (N.eqb_spec u dot) as [->|Hne].
  - apply bool_decide_eq_true. rewrite !elem_of_cons, elem_of_nil. tauto.
  - apply bool_decide_eq_false. rewrite !elem_of_cons, elem_of_nil. tauto.
Qed.

(** A greedy repetition never gives a character back when the continuation
    cannot start with a character of the class. *)
Lemma star_match_skip c (s : jsstring) k :
  (∀ u s', in_class c u = true → k (u :: s') = None) →
  star_match c s k = k (drop_while (in_class c) s).
Proof.
  intros Hk. induction s as [|u s IH]; simpl; [done|].
  destruct (in_class c u) eqn:E; [|done].
  rewrite IH. destruct (k (drop_while (in_class c) s)) eqn:E'; [done|].
  by apply Hk.
Qed.

Lemma take_matched (a b : jsstring) :
  take (length (a ++ b) - length b) (a ++ b) = a.
Proof.
  rewrite length_app.
  replace (length a + length b - length b)%nat with (length a) by lia.
  by rewrite take_app_length.
Qed.

(** The regular expression, run by the backtracking matcher, computes the
    prefix read off the pattern by hand. *)
Lemma marker_match_direct (l : jsstring) :
  marker_match l = spec_marker_prefix is_white l.
Proof.
  unfold marker_match, match_anchored, OUTLINER_MARKER_REGEX, spec_marker_prefix.
  cbn [rmatch].
  rewrite star_match_skip.
  2:{ intros u s' Hu. cbn [in_class] in Hu.
      destruct (white_not_marker_char u Hu) as (Hh & Hd & Hs & _ & Hg).
      cbn [in_class]. rewrite <- in_class_hash in Hh. cbn [in_class] in Hh.
      rewrite Hh, Hg.
      pose proof (in_class_bullet u) as Hb. cbn [in_class] in Hb.
      rewrite Hb, Hd, Hs. done. }
  cbn [in_class].
  change (drop_while (in_class ClsWhite) l) with (drop_while is_white l).
  pose proof (take_drop_while is_white l) as Hl.
  set (ws := take_while is_white l) in *.
  set (s := drop_while is_white l) in *.
  destruct s as [|c s'] eqn:Es; [done|].
  pose proof (in_class_hash c) as Hh. cbn [in_class] in Hh. rewrite Hh.
  pose proof (in_class_bullet c) as Hb. cbn [in_class] in Hb. rewrite Hb.
  destruct (is_hash c) eqn:Ec.
  - (* heading *)
    assert (c = hash) as -> by (unfold is_hash in Ec; lia).
    rewrite star_match_skip.
    2:{ intros u t Hu. rewrite in_class_hash in Hu.
        assert (is_white u = false) as -> by
          (unfold is_hash, hash, is_white in *; lia). done. }
    rewrite (drop_while_ext _ is_hash) by apply in_class_hash.
    cbn [drop_while take_while]. rewrite Ec.
    destruct (drop_while is_hash s') as [|u t] eqn:Ed; [done|].
    destruct (is_white u) eqn:Eu; [|done].
    cbn [mbind option_bind]. f_equal.
    pose proof (take_drop_while is_hash s') as Hs'. rewrite Ed in Hs'.
    remember (take_while is_hash s') as hs eqn:Hhs. clear Hhs.
    rewrite <- Hl, <- Hs'.
    replace (ws ++ hash :: hs ++ u :: t)
      with ((ws ++ (hash :: hs) ++ [u]) ++ t)
      by (by rewrite <- !app_assoc).
    apply take_matched.
  - destruct ((c =? dash)%N || (c =? star)%N) eqn:Eb.
    + (* bullet *)
      assert (is_digit c = false) as Hg by
        (unfold is_digit, dash, star in *; lia).
      destruct s' as [|u t].
      { by rewrite Hg. }
      destruct (is_white u) eqn:Eu.
      * cbn [mbind option_bind]. f_equal. rewrite <- Hl.
        replace (ws ++ c :: u :: t) with ((ws ++ [c] ++ [u]) ++ t)
          by (by rewrite <- !app_assoc).
        apply take_matched.
      * by rewrite Hg.
    + destruct (is_digit c) eqn:Eg; [|done].
      (* ordered list *)
      rewrite star_match_skip.
      2:{ intros u t Hu. cbn [in_class] in Hu.
          pose proof (in_class_dot u) as Hd. cbn [in_class] in Hd.
          rewrite Hd.
          assert ((u =? dot)%N = false) as -> by
            (unfold is_digit, dot in *; lia). done. }
      cbn [in_class drop_while take_while]. rewrite Eg.
      change (drop_while (in_class ClsDigit) s') with (drop_while is_digit s').
      destruct (drop_while is_digit s') as [|d after] eqn:Ed; [done|].
      pose proof (in_class_dot d) as Hd. cbn [in_class] in Hd. rewrite Hd.
      destruct (d =? dot)%N eqn:Edot; [|done].
      assert (d = dot) as -> by lia.
      destruct after as [|u t]; [done|].
      destruct (is_white u) eqn:Eu; [|done].
      cbn [mbind option_bind]. f_equal.
      pose proof (take_drop_while is_digit s') as Hs'. rewrite Ed in Hs'.
      remember (take_while is_digit s') as ds eqn:Hds. clear Hds.
      rewrite <- Hl, <- Hs'.
      replace (ws ++ c :: ds ++ dot :: u :: t)
        with ((ws ++ ((c :: ds) ++ [dot]) ++ [u]) ++ t)
        by (by rewrite <- !app_assoc).
      apply take_matched.
Qed.

Lemma marker_body_head body :
  marker_body body →
  ∃ c body', body = c :: body' ∧ is_white c = false.
Proof.
  intros [hs Hne Hall | u [-> | ->] | ds Hne Hall].
  - destruct hs as [|c hs']; [done|]. exists c, hs'. split; [done|].
    apply Forall_cons in Hall as [-> _]. done.
  - by exists dash, [].
  - by exists star, [].
  - destruct ds as [|c ds']; [done|]. exists c, (ds' ++ [dot]). split; [done|].
    apply Forall_cons in Hall as [Hc _]. unfold is_digit, is_white in *. lia.
Qed.

Lemma spec_marker_prefix_shape sep (l m : jsstring) :
  spec_marker_prefix sep l = Some m → marker_shape sep l m.
Proof.
  unfold spec_marker_prefix.
  pose proof (take_drop_while is_white l) as Hl.
  pose proof (take_while_all is_white l) as Hws.
  set (ws := take_while is_white l) in *.
  destruct (drop_while is_white l) as [|c s'] eqn:Es; [done|].
  destruct (is_hash c) eqn:Ec.
  - pose proof (take_drop_while is_hash (c :: s')) as Hs.
    pose proof (take_while_all is_hash (c :: s')) as Hall.
    assert (take_while is_hash (c :: s') ≠ []) as Hne
      by (cbn [take_while]; by rewrite Ec).
    set (hs := take_while is_hash (c :: s')) in *.
    destruct (drop_while is_hash (c :: s')) as [|u rest]; [done|].
    destruct (sep u) eqn:Eu; [|done]. intros [= <-].
    exists ws, hs, u, rest. repeat split; try done.
    + by rewrite Hs.
    + apply body_heading; [done|].
      eapply Forall_impl; [exact Hall|]. intros x Hx. unfold is_hash in Hx. lia.
  - destruct ((c =? dash)%N || (c =? star)%N) eqn:Eb.
    + destruct s' as [|u rest]; [done|].
      destruct (sep u) eqn:Eu; [|done]. intros [= <-].
      exists ws, [c], u, rest. repeat split; try done.
      apply body_bullet. lia.
    + destruct (is_digit c) eqn:Eg; [|done].
      pose proof (take_drop_while is_digit (c :: s')) as Hs.
      pose proof (take_while_all is_digit (c :: s')) as Hall.
      assert (take_while is_digit (c :: s') ≠ []) as Hne
        by (cbn [take_while]; by rewrite Eg).
      set (ds := take_while is_digit (c :: s')) in *.
      destruct (drop_while is_digit (c :: s')) as [|d after]; [done|].
      destruct (d =? dot)%N eqn:Ed; [|done].
      assert (d = dot) as -> by lia.
      destruct after as [|u rest]; [done|].
      destruct (sep u) eqn:Eu; [|done]. intros [= <-].
      exists ws, (ds ++ [dot]), u, rest. repeat split; try done.
      * rewrite <- Hl, <- Hs. by rewrite <- !app_assoc.
      * by apply body_ordered.
Qed.

Lemma shape_spec_marker_prefix (sep : N → bool) (l m : jsstring) :
  (∀ u, sep u = true → is_white u = true) →
  marker_shape sep l m → spec_marker_prefix sep l = Some m.
Proof.
  intros Hsep (ws & body & u & rest & -> & -> & Hws & Hbody & Hu).
  pose proof (Hsep u Hu) as Hwu.
  destruct (white_not_marker_char u Hwu) as (Hh & _ & _ & _ & Hg).
  destruct (marker_body_head body Hbody) as (c & body' & Hb' & Hc).
  unfold spec_marker_prefix.
  rewrite take_while_app, drop_while_app by done.
  assert (take_while is_white (body ++ u :: rest) = []) as ->
    by (rewrite Hb'; by apply take_while_stop).
  assert (drop_while is_white (body ++ u :: rest) = body ++ u :: rest) as ->
    by (rewrite Hb'; by apply drop_while_stop).
  rewrite app_nil_r.
  destruct Hbody as [hs Hne Hall | b Hbul | ds Hne Hall].
  - assert (Forall (λ x, is_hash x = true) hs) as Hall'.
    { eapply Forall_impl; [exact Hall|]. by intros x ->. }
    subst hs. apply Forall_cons in Hall' as [Hc' Hall''].
    cbn [app take_while drop_while]. rewrite Hc'.
    rewrite take_while_app, drop_while_app by done.
    rewrite take_while_stop, drop_while_stop by done.
    by rewrite Hu, app_nil_r.
  - injection Hb' as -> <-.
    assert (is_hash c = false ∧ ((c =? dash)%N || (c =? star)%N) = true)
      as [Hc1 Hc2] by (unfold is_hash, hash, dash, star in *; lia).
    cbn [app]. by rewrite Hc1, Hc2, Hu.
  - destruct ds as [|d0 ds']; [done|]. cbn [app] in Hb'. injection Hb' as -> <-.
    apply Forall_cons in Hall as [Hd0 Hall].
    assert (is_hash c = false ∧ ((c =? dash)%N || (c =? star)%N) = false)
      as [Hc1 Hc2] by (unfold is_hash, is_digit, hash, dash, star in *; lia).
    cbn [app take_while drop_while]. rewrite Hc1, Hc2, Hd0.
    rewrite <- !app_assoc.
    rewrite take_while_app, drop_while_app by done.
    cbn [app]. rewrite take_while_stop, drop_while_stop by done.
    change (dot =? dot)%N with true. cbn iota.
    rewrite Hu, app_nil_r. by rewrite <- !app_assoc.
Qed.

(** The match of the regular expression, characterised: the prefix made of
    the leading white space, a marker body and one white-space character. *)
Lemma marker_match_shape (l m : jsstring) :
  marker_match l = Some m ↔ marker_shape is_white l m.
Proof.
  rewrite marker_match_direct. split.
  - apply spec_marker_prefix_shape.
  - by apply shape_spec_marker_prefix.
Qed.

Lemma marker_match_prefix (l m : jsstring) :
  marker_match l = Some m → ∃ rest, l = m ++ rest.
Proof.
  intros (ws & body & u & rest & -> & -> & _)%marker_match_shape.
  exists rest. by rewrite <- !app_assoc.
Qed.

Lemma marker_body_last body :
  marker_body body →
  ∃ body' c, body = body' ++ [c] ∧ is_white c = false.
Proof.
  intros [hs Hne Hall | u [-> | ->] | ds Hne Hall].
  - destruct (exists_last Hne) as (hs' & c & ->). exists hs', c. split; [done|].
    apply Forall_app in Hall as [_ Hc]. apply Forall_cons in Hc as [-> _]. done.
  - by exists [], dash.
  - by exists [], star.
  - by exists ds, dot.
Qed.

Lemma drop_while_app_stop (p : N → bool) (a : jsstring) c (b : jsstring) :
  p c = false → drop_while p (a ++ c :: b) = drop_while p a ++ c :: b.
Proof.
  intros Hc. induction a as [|u a IH]; simpl; [by rewrite Hc|].
  by destruct (p u).
Qed.

Lemma drop_while_nil (p : N → bool) (s : jsstring) :
  drop_while p s = [] ↔ Forall (λ u, p u = true) s.
Proof.
  induction s as [|u s IH]; simpl; [by split; [constructor|]|].
  destruct (p u) eqn:E.
  - rewrite IH. split; [by constructor|]. by intros [_ ?]%Forall_cons.
  - split; [done|]. intros [? _]%Forall_cons. congruence.
Qed.

(** [trim] on a line that starts with a marker body after white space: the
    body stays, and what follows it loses its trailing white space. *)
Lemma trim_after_body (ws body t : jsstring) :
  Forall (λ c, is_white c = true) ws → marker_body body →
  trim (ws ++ body ++ t) = body ++ reverse (drop_while is_white (reverse t)).
Proof.
  intros Hws Hbody. unfold trim.
  destruct (marker_body_head body Hbody) as (c & b1 & Hb1 & Hc).
  destruct (marker_body_last body Hbody) as (b2 & d & Hb2 & Hd).
  rewrite drop_while_app by done.
  assert (drop_while is_white (body ++ t) = body ++ t) as ->
    by (rewrite Hb1; by apply drop_while_stop).
  rewrite reverse_app. rewrite Hb2 at 1. rewrite reverse_app, reverse_singleton.
  cbn [app]. rewrite drop_while_app_stop by done.
  rewrite reverse_app, reverse_cons, reverse_involutive. by rewrite <- Hb2.
Qed.

(** With a marker found, the trimmed line equals the trimmed marker exactly
    when nothing but white space follows the marker. *)
Lemma trim_eq_marker_iff (m rest : jsstring) :
  marker_match (m ++ rest) = Some m →
  trim (m ++ rest) = trim m ↔ Forall (λ c, is_white c = true) rest.
Proof.
  intros Hm. pose proof Hm as Hm'.
  apply marker_match_shape in Hm' as (ws & body & u & rest' & Hl & -> & Hws & Hbody & Hu).
  rewrite <- !app_assoc in Hl.
  apply app_inv_head in Hl. apply app_inv_head in Hl.
  injection Hl as <-.
  replace ((ws ++ body ++ [u]) ++ rest) with (ws ++ body ++ (u :: rest))
    by (by rewrite <- !app_assoc).
  rewrite !trim_after_body by done.
  replace (reverse (drop_while is_white (reverse [u]))) with (@nil N)
    by (rewrite reverse_singleton; cbn; by rewrite Hu).
  rewrite app_nil_r. split.
  - intros H. apply (f_equal length) in H. rewrite length_app in H.
    assert (length (reverse (drop_while is_white (reverse (u :: rest)))) = 0%nat)
      as H0 by lia.
    rewrite length_reverse in H0. apply length_zero_iff_nil in H0.
    apply drop_while_nil in H0. rewrite Forall_reverse in H0.
    by apply Forall_cons in H0 as [_ ?].
  - intros Hrest.
    assert (drop_while is_white (reverse (u :: rest)) = []) as ->.
    { apply drop_while_nil. rewrite Forall_reverse. by constructor. }
    by rewrite app_nil_r.
Qed.

(** The matched prefix does not depend on what follows it. *)
Lemma marker_match_extend (l m rest : jsstring) :
  marker_match l = Some m → marker_match (m ++ rest) = Some m.
Proof.
  intros (ws & body & u & rest' & -> & -> & Hws & Hbody & Hu)%marker_match_shape.
  apply marker_match_shape. exists ws, body, u, rest.
  repeat split; try done. by rewrite <- !app_assoc.
Qed.

(** ** The marker parser *)

(** C4 (amended).  The match against OUTLINER_MARKER_REGEX succeeds exactly
    when the line begins, after optional leading white space, with one or
    more [#], or one [-] or [*], or one or more digits and a dot, followed by
    one white-space character (any character of [\s]: a space, a tab, ...).
    The result is that prefix, leading white space included.  The parser is
    a total function of the line alone. *)
Theorem marker_match_spec (line : jsstring) :
  (∀ m, marker_match line = Some m ↔ marker_shape is_white line m) ∧
  (marker_match line = None ↔ ¬ ∃ m, marker_shape is_white line m) ∧
  (∀ m, marker_match line = Some m →
     ∃ rest, line = m ++ rest ∧ take_while is_white line `prefix_of` m) ∧
  marker_match line = spec_marker_prefix is_white line.
Proof.
  split; [intros m; apply marker_match_shape|].
  split; [|split; [|apply marker_match_direct]].
  - split.
    + intros Hn [m Hm%marker_match_shape]. congruence.
    + intros Hn. destruct (marker_match line) as [m|] eqn:E; [|done].
      exfalso. apply Hn. exists m. by apply marker_match_shape.
  - intros m (ws & body & u & rest & -> & -> & Hws & Hbody & Hu)%marker_match_shape.
    exists rest. split; [by rewrite <- !app_assoc|].
    destruct (marker_body_head body Hbody) as (c & b1 & -> & Hc).
    rewrite take_while_app by done. cbn [app].
    rewrite take_while_stop, app_nil_r by done.
    by exists ((c :: b1) ++ [u]).
Qed.

(** C4, counterexample to the wording "followed by a space": on the line
    made of [-], a tab and [x] the regular expression matches ([\s] accepts
    the tab), although the line does not begin with a bullet followed by a
    space. *)
Lemma marker_match_tab_not_space :
  let line := (js "-" ++ [9%N] ++ js "x") in
  marker_match line = Some (js "-" ++ [9%N]) ∧
  spec_marker_prefix is_space line = None ∧
  ¬ ∃ m, marker_shape is_space line m.
Proof.
  cbn zeta. split; [by vm_compute|]. split; [by vm_compute|].
  intros [m Hm]. apply shape_spec_marker_prefix in Hm.
  - vm_compute in Hm. discriminate.
  - intros u Hu. unfold is_space, space, is_white in *. lia.
Qed.

(** ** The editor commands *)

Lemma getLine_setLine (e : Editor) (n : nat) (text : jsstring) :
  (n < length (doc e))%nat → getLine (setLine e n text) n = text.
Proof.
  intros Hn. unfold getLine, setLine; simpl.
  by rewrite list_lookup_insert_eq.
Qed.

(** C5 (amended).  With the cursor on a line of the document: if a marker is
    found and the trimmed line differs from the trimmed marker, the line
    becomes exactly the marker and the cursor is placed right after it
    (column = marker length); if the trimmed line equals the trimmed marker,
    which is the case exactly when nothing but white space follows the
    marker, the command changes nothing; if no marker is found, the line
    becomes the empty string and the cursor goes to column 0. *)
Theorem empty_except_marker_cases (e : Editor) :
  cursor_in_doc e →
  let n := line (getCursor e) in
  let l := getLine e n in
  let e' := empty_current_line_content_except_marker e in
  (∀ m, marker_match l = Some m → trim l ≠ trim m →
     doc e' = <[n := m]> (doc e) ∧ getLine e' n = m ∧
     getCursor e' = {| line := n; ch := length m |} ∧
     somethingSelected e' = false) ∧
  (∀ m, marker_match l = Some m → trim l = trim m → e' = e) ∧
  (marker_match l = None →
     doc e' = <[n := []]> (doc e) ∧ getLine e' n = [] ∧
     getCursor e' = {| line := n; ch := 0 |} ∧
     somethingSelected e' = false) ∧
  (∀ m, marker_match l = Some m →
     ∃ rest, l = m ++ rest ∧
       (trim l = trim m ↔ Forall (λ c, is_white c = true) rest)).
Proof.
  intros Hin n l e'. subst e'. unfold empty_current_line_content_except_marker.
  fold n. fold l. unfold cursor_in_doc in Hin. fold n in Hin.
  split; [|split; [|split]].
  - intros m Hm Hne. rewrite Hm. unfold str_eqb.
    rewrite bool_decide_eq_false_2 by done.
    split; [done|]. split; [by apply getLine_setLine|]. split; [done|].
    unfold somethingSelected, pos_eqb; simpl. by rewrite !Nat.eqb_refl.
  - intros m Hm Ht. rewrite Hm. unfold str_eqb. by rewrite bool_decide_eq_true_2.
  - intros Hm. rewrite Hm.
    split; [done|]. split; [by apply getLine_setLine|]. split; [done|].
    unfold somethingSelected, pos_eqb; simpl. by rewrite !Nat.eqb_refl.
  - intros m Hm. destruct (marker_match_prefix l m Hm) as [rest Hrest].
    exists rest. split; [done|]. rewrite Hrest. apply trim_eq_marker_iff.
    by rewrite <- Hrest.
Qed.

Lemma empty_except_marker_cases_witness :
  let e := one_line (js "- done") 6 in
  cursor_in_doc e ∧
  getLine (empty_current_line_content_except_marker e) 0 = js "- " ∧
  getCursor (empty_current_line_content_except_marker e) = {| line := 0; ch := 2 |}.
Proof.
  cbn zeta.
  assert (cursor_in_doc (one_line (js "- done") 6)) as Hin
    by (unfold cursor_in_doc; simpl; lia).
  split; [exact Hin|].
  destruct (empty_except_marker_cases _ Hin) as (H1 & _).
  destruct (H1 (js "- ")) as (_ & Hl & Hc & _).
  - reflexivity.
  - vm_compute. discriminate.
  - split; [exact Hl | exact Hc].
Defined.

(** C5, counterexample to "the line is not just the marker": on ["-  "] the
    marker ["- "] is found and the line is not the marker, yet the command
    leaves the line as it is instead of cutting it down to the marker. *)
Lemma empty_except_marker_trailing_space :
  let e := one_line (js "-  ") 3 in
  marker_match (getLine e 0) = Some (js "- ") ∧
  getLine e 0 ≠ js "- " ∧
  empty_current_line_content_except_marker e = e ∧
  ¬ empty_except_marker_exact_cases e.
Proof.
  cbn zeta. split; [by vm_compute|]. split; [by vm_compute|].
  split; [by vm_compute|].
  unfold empty_except_marker_exact_cases. vm_compute.
  intros [H _]. discriminate.
Qed.

(** [Clear current line for new format] empties the line and moves the
    cursor to column 0, marker or not. *)
Lemma clear_current_line_spec (e : Editor) :
  cursor_in_doc e →
  let n := line (getCursor e) in
  let e' := clear_current_line_for_new_format e in
  getLine e' n = [] ∧ getCursor e' = {| line := n; ch := 0 |}.
Proof.
  intros Hin n e'. split; [|done]. by apply getLine_setLine.
Qed.

(** C10.  The marker-only case is decided on the trimmed strings: whenever
    the trimmed line equals the trimmed marker the command leaves the editor
    (line and cursor) unchanged; this covers every line made of the marker
    followed by white space only, such as ["-  "], although such a line is
    not the marker itself. *)
Theorem marker_only_noop_by_trim (e : Editor) (m : jsstring) :
  let l := getLine e (line (getCursor e)) in
  marker_match l = Some m →
  (trim l = trim m → empty_current_line_content_except_marker e = e) ∧
  (∀ rest, l = m ++ rest → Forall (λ c, is_white c = true) rest →
     trim l = trim m ∧ empty_current_line_content_except_marker e = e ∧
     (rest ≠ [] → l ≠ m)).
Proof.
  intros l Hm.
  assert (trim l = trim m → empty_current_line_content_except_marker e = e)
    as Hnoop.
  { intros Ht. unfold empty_current_line_content_except_marker.
    fold l. rewrite Hm. unfold str_eqb. by rewrite bool_decide_eq_true_2. }
  split; [exact Hnoop|].
  intros rest Hl Hrest.
  assert (trim l = trim m) as Ht.
  { rewrite Hl. apply trim_eq_marker_iff; [|done]. by rewrite <- Hl. }
  repeat split; [done | by apply Hnoop |].
  intros Hne Heq. rewrite Heq in Hl.
  apply (f_equal length) in Hl. rewrite length_app in Hl.
  destruct rest; [done | simpl in Hl; lia].
Qed.

Lemma marker_only_noop_by_trim_witness :
  let e := one_line (js "-  ") 3 in
  marker_match (getLine e (line (getCursor e))) = Some (js "- ") ∧
  trim (getLine e (line (getCursor e))) = trim (js "- ") ∧
  empty_current_line_content_except_marker e = e.
Proof.
  cbn zeta.
  assert (marker_match
            (getLine (one_line (js "-  ") 3)
               (line (getCursor (one_line (js "-  ") 3)))) = Some (js "- "))
    as Hm by reflexivity.
  split; [exact Hm|].
  destruct (marker_only_noop_by_trim _ _ Hm) as [_ H].
  destruct (H (js " ")) as (Ht & He & _).
  - reflexivity.
  - repeat constructor.
  - split; [exact Ht | exact He].
Defined.

Lemma pos_leb_total p q : pos_leb p q = false → pos_leb q p = true.
Proof. unfold pos_leb. lia. Qed.

(** C6.  With an active selection the command collapses it to the
    selection's end point (the later of anchor and head); without one it
    selects, on the current line, from just after the marker (column 0 when
    there is none) to the end of the line text.  The document is not
    changed.  On ["- hello"] with nothing selected the selection spans
    columns 2 to 7. *)
Theorem select_or_cancel_spec :
  (∀ e : Editor,
     let e' := select_current_line_or_cancel e in
     doc e' = doc e ∧
     (somethingSelected e = true →
        sel_anchor e' = getCursor_to e ∧ sel_head e' = getCursor_to e ∧
        somethingSelected e' = false ∧
        pos_leb (sel_anchor e) (getCursor_to e) = true ∧
        pos_leb (sel_head e) (getCursor_to e) = true) ∧
     (somethingSelected e = false →
        let n := line (getCursor e) in
        let l := getLine e n in
        let startCh := from_option length 0%nat (marker_match l) in
        sel_anchor e' = {| line := n; ch := startCh |} ∧
        sel_head e' = {| line := n; ch := length l |} ∧
        (startCh ≤ length l)%nat)) ∧
  (let e' := select_current_line_or_cancel (one_line (js "- hello") 0) in
   sel_anchor e' = {| line := 0; ch := 2 |} ∧
   sel_head e' = {| line := 0; ch := 7 |}).
Proof.
  split; [|by vm_compute].
  intros e e'. subst e'. unfold select_current_line_or_cancel.
  destruct (somethingSelected e) eqn:Es; (split; [done|]);
    [split; [|done] | split; [done|]].
  - intros _. repeat split.
    + unfold somethingSelected, pos_eqb; simpl. by rewrite !Nat.eqb_refl.
    + unfold getCursor_to. destruct (pos_leb (sel_anchor e) (sel_head e)) eqn:E;
        [done | unfold pos_leb; lia].
    + unfold getCursor_to. destruct (pos_leb (sel_anchor e) (sel_head e)) eqn:E;
        [unfold pos_leb; lia | by apply pos_leb_total].
  - intros _. set (l := getLine e (line (getCursor e))).
    destruct (marker_match l) as [m|] eqn:Em; simpl; repeat split; try lia.
    destruct (marker_match_prefix l m Em) as [rest ->].
    rewrite length_app. lia.
Qed.

(** ** Settings *)

Lemma loadSettings_union (data : JsValue) :
  loadSettings data = own_props data ∪ DEFAULT_SETTINGS.
Proof.
  unfold loadSettings, object_assign; simpl. by rewrite (right_id_L ∅ (∪)).
Qed.

(** C9.  [loadSettings] merges the loaded data over the defaults, one level
    deep: a field the loaded data has overrides the default, a field it
    lacks keeps its DEFAULT_SETTINGS value ([idleTimeoutMs] = 60000).  With
    no data at all ([null]) the result is DEFAULT_SETTINGS, and so it is
    with an object that has no field. *)
Theorem loadSettings_shallow_merge (data : JsValue) :
  (∀ k v, own_props data !! k = Some v → loadSettings data !! k = Some v) ∧
  (∀ k, own_props data !! k = None →
     loadSettings data !! k = DEFAULT_SETTINGS !! k) ∧
  (own_props data !! "idleTimeoutMs"%string = None →
     as_settings (loadSettings data) = Some {| idleTimeoutMs := 60000 |}) ∧
  loadSettings JNull = DEFAULT_SETTINGS ∧
  loadSettings (JObject ∅) = DEFAULT_SETTINGS ∧
  DEFAULT_SETTINGS !! "idleTimeoutMs"%string = Some (JNumber 60000).
Proof.
  rewrite !loadSettings_union.
  split; [|split; [|split; [|split; [|split]]]].
  - intros k v Hk. by apply lookup_union_Some_l.
  - intros k Hk. by apply lookup_union_r.
  - intros Hk. unfold as_settings. by rewrite lookup_union_r.
  - simpl. by rewrite (left_id_L ∅ (∪)).
  - simpl. by rewrite (left_id_L ∅ (∪)).
  - done.
Qed.

Example loadSettings_samples :
  as_settings (loadSettings (JObject {[ "idleTimeoutMs"%string := JNumber 5000 ]}))
    = Some {| idleTimeoutMs := 5000 |} ∧
  as_settings (loadSettings (JObject {[ "other"%string := JBool true ]}))
    = Some {| idleTimeoutMs := 60000 |} ∧
  loadSettings (JObject {[ "other"%string := JBool true ]}) !! "other"%string
    = Some (JBool true) ∧
  as_settings (loadSettings (JString "abc")) = Some {| idleTimeoutMs := 60000 |} ∧
  loadSettings (JString "abc") !! "1"%string = Some (JString "b") ∧
  as_settings (loadSettings (JObject {[ "idleTimeoutMs"%string := JNull ]})) = None.
Proof. repeat split; by vm_compute. Qed.

(** ** The idle scheduler *)

Ltac world_simpl :=
  unfold call_reset, debounced_call, scrollActiveLineToCenter, onunload,
    resetIdleTimer, V011.resetIdleTimer, clear_idleTimeout, setTimeout_idle,
    idleTimeout_null, clearTimeout, set_clock, set_timers, set_settings,
    set_autoCenterEnabled, set_debouncer, set_saving, set_loaded, set_scrolls,
    set_resets in *; cbn [clock next_handle timers settings idleTimeout
    autoCenterEnabled debouncer saving loaded scrolls resets] in *.

Lemma clear_idleTimeout_timers (w : World) :
  timers_ok w → timers (clear_idleTimeout w) = [].
Proof.
  unfold timers_ok, clear_idleTimeout.
  destruct (timers w) as [|t [|t' ts]] eqn:Et; [| |done].
  - intros _. destruct (idleTimeout w); [|done]. world_simpl. by rewrite Et.
  - intros [-> _]. world_simpl. rewrite Et. cbn.
    by rewrite decide_False by (intros H; by apply H).
Qed.

Lemma clear_idleTimeout_frame (w : World) :
  let w' := clear_idleTimeout w in
  clock w' = clock w ∧ next_handle w' = next_handle w ∧
  settings w' = settings w ∧ idleTimeout w' = idleTimeout w ∧
  autoCenterEnabled w' = autoCenterEnabled w ∧ debouncer w' = debouncer w ∧
  saving w' = saving w ∧ loaded w' = loaded w ∧ scrolls w' = scrolls w ∧
  resets w' = resets w.
Proof.
  cbn zeta. unfold clear_idleTimeout.
  destruct (idleTimeout w) eqn:E; cbn; rewrite ?E; by repeat split.
Qed.

Lemma resetIdleTimer_frame (w : World) :
  let w' := resetIdleTimer w in
  clock w' = clock w ∧ settings w' = settings w ∧
  autoCenterEnabled w' = autoCenterEnabled w ∧ debouncer w' = debouncer w ∧
  saving w' = saving w ∧ loaded w' = loaded w ∧ scrolls w' = scrolls w ∧
  resets w' = resets w.
Proof.
  cbn zeta. unfold resetIdleTimer.
  destruct (clear_idleTimeout_frame w) as (?&?&?&?&?&?&?&?&?&?).
  destruct (autoCenterEnabled (clear_idleTimeout w) &&
            (0 <? idleTimeoutMs (settings (clear_idleTimeout w))));
    unfold setTimeout_idle, idleTimeout_null; cbn; by repeat split.
Qed.

Lemma V011_resetIdleTimer_frame (w : World) :
  let w' := V011.resetIdleTimer w in
  clock w' = clock w ∧ settings w' = settings w ∧
  autoCenterEnabled w' = autoCenterEnabled w ∧ debouncer w' = debouncer w ∧
  saving w' = saving w ∧ loaded w' = loaded w ∧ scrolls w' = scrolls w ∧
  resets w' = resets w.
Proof.
  cbn zeta. unfold V011.resetIdleTimer.
  destruct (clear_idleTimeout_frame w) as (?&?&?&?&?&?&?&?&?&?).
  destruct (autoCenterEnabled (clear_idleTimeout w)) eqn:E;
    unfold setTimeout_idle, idleTimeout_null; cbn; repeat split; congruence.
Qed.

(** What [resetIdleTimer] leaves in the timer table, from a state that
    satisfies the invariant. *)
Lemma resetIdleTimer_timers (w : World) :
  timers_ok w →
  resetIdleTimer w =
    if autoCenterEnabled w && (0 <? idleTimeoutMs (settings w)) then
      setTimeout_idle (idleTimeoutMs (settings w)) (clear_idleTimeout w)
    else idleTimeout_null (clear_idleTimeout w).
Proof.
  intros _. unfold resetIdleTimer.
  by destruct (clear_idleTimeout_frame w) as (_&_&->&_&->&_).
Qed.

Lemma resetIdleTimer_armed (w : World) :
  timers_ok w → autoCenterEnabled w = true → 0 < idleTimeoutMs (settings w) →
  timers (resetIdleTimer w) =
    [{| handle := next_handle w;
        due := clock w + idleTimeoutMs (settings w) |}] ∧
  idleTimeout (resetIdleTimer w) = Some (next_handle w) ∧
  next_handle (resetIdleTimer w) = Pos.succ (next_handle w).
Proof.
  intros Hok Hen HT. rewrite resetIdleTimer_timers by done.
  rewrite Hen. replace (0 <? idleTimeoutMs (settings w)) with true by lia.
  cbn [andb]. unfold setTimeout_idle; cbn.
  rewrite clear_idleTimeout_timers by done.
  destruct (clear_idleTimeout_frame w) as (->&->&_).
  rewrite Z.max_r by lia. done.
Qed.

Lemma resetIdleTimer_idle (w : World) :
  timers_ok w →
  autoCenterEnabled w && (0 <? idleTimeoutMs (settings w)) = false →
  timers (resetIdleTimer w) = [] ∧ idleTimeout (resetIdleTimer w) = None.
Proof.
  intros Hok Hc. rewrite resetIdleTimer_timers by done. rewrite Hc.
  unfold idleTimeout_null; cbn. by rewrite clear_idleTimeout_timers.
Qed.

Lemma resetIdleTimer_ok (w : World) : timers_ok w → timers_ok (resetIdleTimer w).
Proof.
  intros Hok.
  destruct (autoCenterEnabled w && (0 <? idleTimeoutMs (settings w))) eqn:Hc.
  - apply andb_prop in Hc as [Hen HT].
    destruct (resetIdleTimer_armed w) as (Ht & Hi & Hn); [done | done | lia |].
    unfold timers_ok. rewrite Ht, Hi, Hn. cbn. split; [done | lia].
  - destruct (resetIdleTimer_idle w Hok Hc) as [Ht _].
    unfold timers_ok. by rewrite Ht.
Qed.

(** C1.  From every state of the scheduler (one that satisfies its
    invariant), [resetIdleTimer] cancels the pending timer and then leaves
    exactly one pending one-shot timer, due [idleTimeoutMs] after now, if and
    only if [autoCenterEnabled] holds and [settings.idleTimeoutMs > 0];
    otherwise no timer is pending.  With [idleTimeoutMs = 0] no timer is
    scheduled.  The new timer is not delivered before it is due, and its
    delivery runs the centering callback. *)
Theorem resetIdleTimer_spec (w : World) :
  timers_ok w →
  let T := idleTimeoutMs (settings w) in
  let w' := resetIdleTimer w in
  (if autoCenterEnabled w && (0 <? T) then
     timers w' = [{| handle := next_handle w; due := clock w + T |}] ∧
     idleTimeout w' = Some (next_handle w)
   else timers w' = [] ∧ idleTimeout w' = None) ∧
  (timers w' ≠ [] ↔ autoCenterEnabled w = true ∧ 0 < T) ∧
  (T = 0 → timers w' = []) ∧
  (∀ t, t ∈ timers w → t ∉ timers w') ∧
  timers_ok w' ∧
  (autoCenterEnabled w = true → 0 < T →
   ∀ now, let w'' := step current (set_clock now w') TimerFire in
     if clock w + T <=? now
     then scrolls w'' = now :: scrolls w ∧ timers w'' = []
     else scrolls w'' = scrolls w ∧ timers w'' = timers w').
Proof.
  intros Hok T w'. subst T w'.
  split; [|split; [|split; [|split; [|split]]]].
  - destruct (autoCenterEnabled w && (0 <? idleTimeoutMs (settings w))) eqn:Hc.
    + apply andb_prop in Hc as [Hen HT].
      destruct (resetIdleTimer_armed w) as (Ht & Hi & _); [done | done | lia |].
      done.
    + by apply resetIdleTimer_idle.
  - destruct (autoCenterEnabled w && (0 <? idleTimeoutMs (settings w))) eqn:Hc.
    + apply andb_prop in Hc as [Hen HT].
      destruct (resetIdleTimer_armed w) as (Ht & _); [done | done | lia |].
      rewrite Ht. split; [intros _; split; [done | lia] | done].
    + destruct (resetIdleTimer_idle w Hok Hc) as [Ht _]. rewrite Ht.
      split; [done|]. intros [Hen HT]. rewrite Hen in Hc. cbn in Hc. lia.
  - intros H0. apply resetIdleTimer_idle; [done|]. rewrite H0.
    by rewrite andb_false_r.
  - intros t Hin Hin'.
    destruct (autoCenterEnabled w && (0 <? idleTimeoutMs (settings w))) eqn:Hc.
    + apply andb_prop in Hc as [Hen HT].
      destruct (resetIdleTimer_armed w) as (Ht & _); [done | done | lia |].
      rewrite Ht in Hin'. apply list_elem_of_singleton in Hin'. subst t.
      unfold timers_ok in Hok.
      destruct (timers w) as [|t [|t' ts]]; [by apply elem_of_nil in Hin| |done].
      apply list_elem_of_singleton in Hin. destruct Hok as [_ Hlt].
      rewrite <- Hin in Hlt. cbn in Hlt. lia.
    + destruct (resetIdleTimer_idle w Hok Hc) as [Ht _]. rewrite Ht in Hin'.
      by apply elem_of_nil in Hin'.
  - by apply resetIdleTimer_ok.
  - intros Hen HT now.
    destruct (resetIdleTimer_armed w) as (Ht & _); [done | done | lia |].
    destruct (resetIdleTimer_frame w) as (_&_&_&_&_&_&Hs&_).
    cbn zeta. unfold step, set_clock. cbn [clock timers].
    rewrite Ht. cbn [pop_due due].
    destruct (clock w + idleTimeoutMs (settings w) <=? now).
    + unfold scrollActiveLineToCenter, set_scrolls, set_timers.
      cbn [scrolls timers clock]. by rewrite Hs.
    + cbn [scrolls timers]. by rewrite Hs.
Qed.

Lemma resetIdleTimer_spec_witness :
  let w := run current (onload current 0 1 {| idleTimeoutMs := 1000 |})
             [Elapse 300] in
  timers_ok w ∧
  timers (resetIdleTimer w) = [{| handle := 2; due := 1300 |}] ∧
  idleTimeout (resetIdleTimer w) = Some 2%positive.
Proof.
  cbn zeta.
  assert (timers_ok (run current (onload current 0 1 {| idleTimeoutMs := 1000 |})
                       [Elapse 300])) as Hok
    by (split; [reflexivity | reflexivity]).
  split; [exact Hok|].
  destruct (resetIdleTimer_spec _ Hok) as (H & _).
  exact H.
Defined.

Lemma V011_resetIdleTimer_ok (w : World) :
  timers_ok w → timers_ok (V011.resetIdleTimer w).
Proof.
  intros Hok. unfold V011.resetIdleTimer.
  pose proof (clear_idleTimeout_timers w Hok) as Ht.
  destruct (autoCenterEnabled (clear_idleTimeout w)).
  - unfold timers_ok, setTimeout_idle; cbn. rewrite Ht. cbn. split; [done | lia].
  - unfold timers_ok, idleTimeout_null; cbn. by rewrite Ht.
Qed.

Lemma current_sound : reset_sound current.
Proof.
  intros w. cbn. split; [apply resetIdleTimer_ok | apply resetIdleTimer_frame].
Qed.

Lemma V011_sound : reset_sound V011.build.
Proof.
  intros w. cbn.
  split; [apply V011_resetIdleTimer_ok | apply V011_resetIdleTimer_frame].
Qed.

Lemma pop_due_single now (t : Timer) :
  pop_due now [t] = if due t <=? now then Some (t, []) else None.
Proof. cbn. by destruct (due t <=? now). Qed.

Section Machine.

Variable b : Build.
Hypothesis Hb : reset_sound b.

Lemma call_reset_ok o w : timers_ok w → timers_ok (call_reset b o w).
Proof. intros Hok. destruct (Hb w) as [H _]. exact (H Hok). Qed.

Lemma call_reset_frame o w :
  let w' := call_reset b o w in
  clock w' = clock w ∧ settings w' = settings w ∧
  autoCenterEnabled w' = autoCenterEnabled w ∧ debouncer w' = debouncer w ∧
  saving w' = saving w ∧ loaded w' = loaded w ∧ scrolls w' = scrolls w ∧
  resets w' = (clock w, o) :: resets w.
Proof.
  destruct (Hb w) as (_ & Hc & ? & ? & ? & ? & ? & ? & Hr).
  cbn zeta. unfold call_reset, set_resets; cbn. rewrite Hc, Hr. done.
Qed.

(** Every event keeps the invariant: at most one idle timer is pending. *)
Lemma step_timers_ok w e : timers_ok w → timers_ok (step b w e).
Proof.
  intros Hok. destruct e as [dt|s| | | |v| |]; cbn [step].
  - exact Hok.
  - destruct (loaded w); [|done].
    destruct (wiring b s) as [[|]|]; [by apply call_reset_ok | done | done].
  - destruct (debouncer w) as [d|]; [|done].
    destruct (d <=? clock w); [|done]. by apply call_reset_ok.
  - pose proof Hok as Hok'. unfold timers_ok in Hok'.
    destruct (timers w) as [|t [|t' ts]] eqn:Et; [done| |done].
    rewrite pop_due_single. destruct (due t <=? clock w); [|done].
    by unfold timers_ok.
  - destruct (loaded w); [|done]. by apply call_reset_ok.
  - destruct (loaded w && setting_tab b); done.
  - destruct (saving w); [done|]. by apply call_reset_ok.
  - destruct (loaded w); [|done].
    unfold timers_ok, onunload, set_loaded; cbn.
    by rewrite clear_idleTimeout_timers.
Qed.

Lemma run_timers_ok w es : timers_ok w → timers_ok (run b w es).
Proof.
  revert w. induction es as [|e es IH]; intros w Hok; [done|].
  cbn. apply IH. by apply step_timers_ok.
Qed.

Lemma onload_timers_ok t0 h0 st : timers_ok (onload b t0 h0 st).
Proof. apply call_reset_ok. by unfold timers_ok. Qed.

(** Every event keeps the debouncer's guarantee. *)
Lemma step_debounce_ok w e :
  debounce_ok (debounce_delay b) w → debounce_ok (debounce_delay b) (step b w e).
Proof.
  intros Hd. unfold debounce_ok, debounced_resets in *.
  assert (∀ o w0, from_debounce o = false →
            debounce_ok (debounce_delay b) w0 →
            debounce_ok (debounce_delay b) (call_reset b o w0)) as Hcall.
  { intros o w0 Ho H0. unfold debounce_ok, debounced_resets in *.
    destruct (call_reset_frame o w0) as (Hc & _ & _ & Hdb & _ & _ & _ & Hr).
    rewrite Hr, Hc, Hdb. cbn. by rewrite Ho. }
  unfold debounce_ok, debounced_resets in Hcall.
  destruct e as [dt|s| | | |v| |]; cbn [step].
  - unfold set_clock; cbn. destruct Hd as [Hs Hh]. split; [done|].
    destruct (debounced_times (resets w)); [done|].
    destruct Hh as [Hle Hdue]. split; [lia | done].
  - destruct (loaded w); [|done].
    destruct (wiring b s) as [[|]|]; [by apply Hcall | | done].
    unfold debounced_call, set_debouncer; cbn. destruct Hd as [Hs Hh].
    split; [done|]. destruct (debounced_times (resets w)); [done|].
    destruct Hh as [Hle Hdue]. split; [done|]. intros ? [= <-]. lia.
  - destruct (debouncer w) as [d|] eqn:Ed; [|by rewrite Ed].
    destruct (d <=? clock w) eqn:Ele; [|by rewrite Ed].
    destruct (call_reset_frame FromDebounce (set_debouncer None w))
      as (Hc & _ & _ & Hdb & _ & _ & _ & Hr).
    rewrite Hr, Hc, Hdb. cbn. destruct Hd as [Hs Hh].
    destruct (debounced_times (resets w)) as [|t ts]; [done|].
    destruct Hh as [Hle Hdue]. specialize (Hdue d eq_refl).
    repeat split; [lia | done | lia | done].
  - destruct (pop_due (clock w) (timers w)) as [[? ?]|]; done.
  - destruct (loaded w); [|done]. by apply Hcall.
  - destruct (loaded w && setting_tab b); done.
  - destruct (saving w); [done|]. by apply Hcall.
  - destruct (loaded w); [|done].
    destruct (clear_idleTimeout_frame w) as (Hc & _ & _ & _ & _ & Hdb & _ & _ & _ & Hr).
    unfold onunload, set_loaded; cbn. by rewrite Hr, Hc, Hdb.
Qed.

Lemma run_debounce_ok w es :
  debounce_ok (debounce_delay b) w →
  debounce_ok (debounce_delay b) (run b w es).
Proof.
  revert w. induction es as [|e es IH]; intros w Hok; [done|].
  cbn. apply IH. by apply step_debounce_ok.
Qed.

Lemma onload_debounce_ok t0 h0 st :
  debounce_ok (debounce_delay b) (onload b t0 h0 st).
Proof.
  unfold debounce_ok, debounced_resets, onload.
  destruct (call_reset_frame FromLoad (fresh t0 h0 st)) as (_&_&_&_&_&_&_&Hr).
  rewrite Hr. by cbn.
Qed.

End Machine.

Lemma timers_ok_length (w : World) : timers_ok w → (length (timers w) ≤ 1)%nat.
Proof.
  unfold timers_ok. destruct (timers w) as [|t [|t' ts]]; cbn; [lia | lia | done].
Qed.

Lemma onunload_ok (w : World) : timers_ok w → timers_ok (onunload w).
Proof.
  intros Hok. unfold timers_ok, onunload. by rewrite clear_idleTimeout_timers.
Qed.

(** C7.  At most one idle timer is pending at any time: none is pending in
    the fresh instance ([idleTimeout = null]); [resetIdleTimer], [onunload]
    and every event (toggle, settings change, signals, deliveries) keep the
    invariant; hence it holds after [onload] and after any sequence of
    events. *)
Theorem at_most_one_pending_timer :
  (∀ t0 h0 st,
     timers (fresh t0 h0 st) = [] ∧ idleTimeout (fresh t0 h0 st) = None) ∧
  (∀ w, timers_ok w →
     timers_ok (resetIdleTimer w) ∧ timers_ok (onunload w) ∧
     ∀ e, timers_ok (step current w e)) ∧
  (∀ t0 h0 st es,
     let w := run current (onload current t0 h0 st) es in
     timers_ok w ∧ (length (timers w) ≤ 1)%nat).
Proof.
  split; [done|]. split.
  - intros w Hok. split; [by apply resetIdleTimer_ok|].
    split; [by apply onunload_ok|]. intros e.
    apply step_timers_ok; [apply current_sound | done].
  - intros t0 h0 st es w.
    assert (timers_ok w) as Hok.
    { apply run_timers_ok; [apply current_sound|].
      apply onload_timers_ok, current_sound. }
    split; [done | by apply timers_ok_length].
Qed.

(** ** Quiet periods *)

Lemma quiet_run_idle (q : list Event) (w : World) :
  Forall (λ e, quiet e = true) q → timers w = [] →
  scrolls (run current w q) = scrolls w ∧ timers (run current w q) = [] ∧
  clock w <= clock (run current w q).
Proof.
  intros Hq. revert w. induction Hq as [|e q He _ IH]; intros w Ht.
  - cbn. repeat split; try done; lia.
  - destruct e as [dt| | | | | | |]; try done; cbn [run foldl step].
    + destruct (IH (set_clock (clock w + Z.of_N dt) w) Ht) as (Hs & Ht' & Hc).
      unfold run in *. rewrite Hs, Ht'. cbn in *. repeat split; try done; lia.
    + rewrite Ht. cbn [pop_due]. by apply IH.
Qed.

Lemma quiet_run_armed (q : list Event) (w : World) (tm : Timer) :
  Forall (λ e, quiet e = true) q → timers w = [tm] →
  let w2 := run current w q in
  clock w <= clock w2 ∧
  ((scrolls w2 = scrolls w ∧ timers w2 = [tm]) ∨
   (∃ t, scrolls w2 = t :: scrolls w ∧ due tm <= t ∧ t <= clock w2 ∧
         timers w2 = [])).
Proof.
  intros Hq. revert w. induction Hq as [|e q He Hq IH]; intros w Ht.
  - cbn. split; [lia|]. by left.
  - destruct e as [dt| | | | | | |]; try done; cbn [run foldl step].
    + destruct (IH (set_clock (clock w + Z.of_N dt) w) Ht) as (Hc & H).
      unfold run in *. cbn in *. split; [lia | done].
    + rewrite Ht, pop_due_single. destruct (due tm <=? clock w) eqn:Ed.
      * destruct (quiet_run_idle q (scrollActiveLineToCenter (set_timers [] w)))
          as (Hs & Ht' & Hc); [done | done |].
        unfold run in *. cbn in *. split; [done|]. right.
        exists (clock w). rewrite Hs, Ht'. repeat split; try done; lia.
      * by apply IH.
Qed.

(** C2 (amended).  After a call of [resetIdleTimer] with auto-centering
    enabled and [idleTimeoutMs > 0], and as long as no further call is made,
    the centering callback runs at most once, never earlier than
    [idleTimeoutMs] after that call; once that much time has passed and the
    host delivers the timer it has run exactly once.  The state before the
    call is arbitrary, so each call cancels the countdown of the previous
    one and starts a new one.  (A callback that ran before the call stays in
    the record: between two calls that lie [idleTimeoutMs] or more apart
    the callback may run as well.) *)
Theorem debounce_contract (w : World) (q : list Event) :
  timers_ok w → autoCenterEnabled w = true → 0 < idleTimeoutMs (settings w) →
  Forall (λ e, quiet e = true) q →
  let T := idleTimeoutMs (settings w) in
  let w2 := run current (resetIdleTimer w) q in
  (∃ new, scrolls w2 = new ++ scrolls w ∧ (length new ≤ 1)%nat ∧
          Forall (λ t, clock w + T <= t) new ∧
          (clock w2 < clock w + T → new = [])) ∧
  (∀ dt, clock w + T <= clock w2 + Z.of_N dt →
     ∃ t, scrolls (run current w2 [Elapse dt; TimerFire]) = t :: scrolls w ∧
          clock w + T <= t).
Proof.
  intros Hok Hen HT Hq T w2.
  destruct (resetIdleTimer_armed w Hok Hen HT) as (Ht & _).
  destruct (resetIdleTimer_frame w) as (Hc & _ & _ & _ & _ & _ & Hs & _).
  destruct (quiet_run_armed q (resetIdleTimer w) _ Hq Ht) as (Hclk & H).
  fold w2 in Hclk, H. rewrite Hs, Hc in *. cbn [due] in H. fold T in H.
  destruct H as [[Hs2 Ht2] | (t & Hs2 & Hdue & Hle & Ht2)].
  - split.
    + exists []. cbn. repeat split; try done; try lia; constructor.
    + intros dt Hdt. exists (clock w2 + Z.of_N dt).
      cbn [run foldl step]. unfold set_clock at 1 2. cbn [clock timers].
      rewrite Ht2, pop_due_single. cbn [due].
      assert ((clock w + T <=? clock w2 + Z.of_N dt) = true) as -> by lia.
      unfold scrollActiveLineToCenter, set_timers, set_scrolls, set_clock.
      cbn [scrolls clock]. rewrite Hs2. split; [done | lia].
  - split.
    + exists [t]. cbn. repeat split; try done; try lia; by repeat constructor.
    + intros dt Hdt. exists t.
      cbn [run foldl step]. unfold set_clock. cbn [clock timers].
      rewrite Ht2. cbn [pop_due scrolls].
      split; [done | lia].
Qed.

Lemma debounce_contract_witness :
  let w := fresh 0 1 {| idleTimeoutMs := 1000 |} in
  timers_ok w ∧
  ∃ t, scrolls (run current
                  (run current (resetIdleTimer w) [Elapse 400; TimerFire])
                  [Elapse 600; TimerFire]) = t :: scrolls w ∧
       0 + 1000 <= t.
Proof.
  cbn zeta.
  assert (timers_ok (fresh 0 1 {| idleTimeoutMs := 1000 |})) as Hok
    by exact I.
  split; [exact Hok|].
  destruct (debounce_contract (fresh 0 1 {| idleTimeoutMs := 1000 |})
              [Elapse 400; TimerFire] Hok) as [_ H].
  - reflexivity.
  - reflexivity.
  - repeat constructor.
  - apply (H 600%N). vm_compute. discriminate.
Defined.

(** The example of the specification: with a timeout of 1000 ms, a call at
    0 ms and a second call at 500 ms, nothing is delivered at 1000 ms and
    the callback runs at 1500 ms. *)
Example debounce_restart_example :
  let w0 := resetIdleTimer (fresh 0 1 {| idleTimeoutMs := 1000 |}) in
  let w1 := resetIdleTimer (run current w0 [Elapse 500]) in
  let at1000 := run current w1 [Elapse 500; TimerFire] in
  let at1500 := run current at1000 [Elapse 500; TimerFire] in
  clock at1000 = 1000 ∧ scrolls at1000 = [] ∧
  clock at1500 = 1500 ∧ scrolls at1500 = [1500] ∧ timers at1500 = [] ∧
  scrolls (run current at1500 [Elapse 5000; TimerFire]) = [1500].
Proof. by vm_compute. Qed.

(** C2, counterexample to "exactly once for every sequence of calls": with
    a timeout of 1000 ms and calls at 0 ms and at 5000 ms the callback runs
    twice, at 1000 ms and at 6000 ms, and the first run lies before the last
    call. *)
Lemma two_resets_two_callbacks :
  let w0 := resetIdleTimer (fresh 0 1 {| idleTimeoutMs := 1000 |}) in
  let w1 := run current w0 [Elapse 1000; TimerFire; Elapse 4000] in
  let w2 := run current (resetIdleTimer w1) [Elapse 1000; TimerFire] in
  clock w1 = 5000 ∧ autoCenterEnabled w1 = true ∧ scrolls w2 = [6000; 1000] ∧
  ¬ (length (scrolls w2) = 1%nat ∧ Forall (λ t, clock w1 + 1000 <= t) (scrolls w2)).
Proof.
  cbn zeta. split; [by vm_compute|]. split; [by vm_compute|].
  split; [by vm_compute|]. intros [H _]. vm_compute in H. discriminate.
Qed.

(** While auto-centering is disabled no timer is pending, so no delivery can
    run the callback. *)
Lemma disabled_no_timer (t0 : Z) (h0 : positive) (st : EditHelperPluginSettings)
    (es : list Event) :
  let w := run current (onload current t0 h0 st) es in
  autoCenterEnabled w = false → timers w = [] ∧ step current w TimerFire = w.
Proof.
  cbn zeta.
  assert (∀ w, timers_ok w →
            autoCenterEnabled (resetIdleTimer w) = false →
            timers (resetIdleTimer w) = []) as Hreset.
  { intros w Hok Hen.
    destruct (resetIdleTimer_frame w) as (_ & _ & He & _). rewrite He in Hen.
    apply resetIdleTimer_idle; [done|]. by rewrite Hen. }
  assert (∀ es w, timers_ok w → (autoCenterEnabled w = false → timers w = []) →
            autoCenterEnabled (run current w es) = false →
            timers (run current w es) = []) as Hrun.
  { clear es. induction es as [|e es IH]; intros w Hok Hinv; [done|].
    cbn [run foldl]. apply IH.
    - apply step_timers_ok; [apply current_sound | done].
    - destruct e as [dt|s| | | |v| |]; cbn [step].
      + done.
      + destruct (loaded w); [|done]. destruct s; cbn; done.
      + destruct (debouncer w) as [d|]; [|done].
        destruct (d <=? clock w); [|done]. by apply Hreset.
      + destruct (pop_due (clock w) (timers w)) as [[t rest]|] eqn:Ep; [|done].
        cbn. intros Hen. specialize (Hinv Hen). rewrite Hinv in Ep. done.
      + destruct (loaded w); [|done]. by apply Hreset.
      + destruct (loaded w && setting_tab current); done.
      + destruct (saving w); [done|]. by apply Hreset.
      + destruct (loaded w); [|done]. intros _. cbn.
        by apply clear_idleTimeout_timers. }
  intros Hen.
  assert (timers (run current (onload current t0 h0 st) es) = []) as Ht.
  { apply Hrun; [apply onload_timers_ok, current_sound | | done].
    by apply Hreset. }
  split; [done|]. cbn [step]. by rewrite Ht.
Qed.

(** C3, failing traces.  (1) An edit arms the debouncer; the plugin is
    unloaded 100 ms later, which cancels the idle timer; the debouncer's
    call of [resetIdleTimer] still arrives, schedules a new idle timer, and
    the callback runs after the plugin was unloaded.  (2) The slider is set
    to 0 while a timer is about to be due; [onChange] waits for
    [saveSettings] before it calls [resetIdleTimer], and the callback runs
    with [idleTimeoutMs = 0]. *)
Theorem callback_after_unload_and_with_zero_timeout :
  (let w0 := onload current 0 1 {| idleTimeoutMs := 60000 |} in
   let w1 := run current w0 [Activity EditorChange; Elapse 100; Unload] in
   let w2 := run current w1 [Elapse 400; DebounceFire; Elapse 60000; TimerFire] in
   loaded w1 = false ∧ timers w1 = [] ∧ scrolls w1 = [] ∧
   loaded w2 = false ∧ scrolls w2 = [60500]) ∧
  (let w0 := onload current 0 1 {| idleTimeoutMs := 1000 |} in
   let w1 := run current w0 [Elapse 999; SliderChange 0; Elapse 1] in
   let w2 := step current w1 TimerFire in
   idleTimeoutMs (settings w1) = 0 ∧ scrolls w1 = [] ∧
   idleTimeoutMs (settings w2) = 0 ∧ scrolls w2 = [1000] ∧
   timers (step current w2 SaveDone) = []).
Proof. by vm_compute. Qed.

(** After the unload, once no debounced call is pending and no [onChange]
    is suspended, the callback never runs again. *)
Lemma unloaded_settled_silent (w : World) (es : list Event) :
  loaded w = false → debouncer w = None → saving w = 0%nat → timers w = [] →
  scrolls (run current w es) = scrolls w.
Proof.
  unfold run. revert w.
  induction es as [|e es IH]; intros w Hl Hd Hs Ht; [done|].
  cbn [foldl].
  destruct e as [dt|s| | | |v| |]; cbn [step];
    rewrite ?Hl, ?Hd, ?Hs, ?Ht; cbn [pop_due andb]; try by apply IH.
  by rewrite (IH (set_clock (clock w + Z.of_N dt) w)).
Qed.

(** ** Activity signals *)

(** C8 (amended).  In revision 0.1.1 edits, focus changes, key presses and
    pointer presses call [resetIdleTimer] at once, and pointer moves go
    through the debouncer.  In the last revision only edits are registered,
    through the debouncer; focus changes, key presses, pointer presses and
    pointer moves do not reach [resetIdleTimer].  In both revisions a
    debounced call of [resetIdleTimer] is made once 500 ms have passed since
    the last signal, not before, and two such calls lie at least 500 ms
    apart. *)
Theorem activity_signals_wiring :
  (∀ w s, loaded w = true → s ≠ MouseMove →
     step V011.build w (Activity s) = call_reset V011.build (FromSignal s) w) ∧
  (∀ w, loaded w = true →
     step V011.build w (Activity MouseMove) = debounced_call V011.build w) ∧
  (∀ w, loaded w = true →
     step current w (Activity EditorChange) = debounced_call current w) ∧
  (∀ w s, s ≠ EditorChange → step current w (Activity s) = w) ∧
  (∀ b w dt, b = V011.build ∨ b = current →
     let w1 := run b (debounced_call b w) [Elapse dt] in
     step b w1 DebounceFire =
       if 500 <=? Z.of_N dt
       then call_reset b FromDebounce (set_debouncer None w1)
       else w1) ∧
  (∀ b t0 h0 st es, b = V011.build ∨ b = current →
     spaced 500 (debounced_resets (run b (onload b t0 h0 st) es))).
Proof.
  split; [|split; [|split; [|split; [|split]]]].
  - intros w s Hl Hs. cbn [step]. rewrite Hl. by destruct s.
  - intros w Hl. cbn [step]. by rewrite Hl.
  - intros w Hl. cbn [step]. by rewrite Hl.
  - intros w s Hs. cbn [step]. destruct (loaded w); [|done]. by destruct s.
  - intros b w dt Hb w1. subst w1. cbn [run foldl step].
    unfold debounced_call, set_debouncer, set_clock. cbn [debouncer clock].
    assert (debounce_delay b = 500) as -> by (by destruct Hb as [-> | ->]).
    assert ((clock w + 500 <=? clock w + Z.of_N dt) = (500 <=? Z.of_N dt))
      as -> by lia.
    done.
  - intros b t0 h0 st es Hb.
    assert (reset_sound b) as Hs
      by (destruct Hb as [-> | ->]; [apply V011_sound | apply current_sound]).
    assert (debounce_delay b = 500) as Hd by (by destruct Hb as [-> | ->]).
    rewrite <- Hd.
    apply (run_debounce_ok b Hs). by apply onload_debounce_ok.
Qed.

Lemma activity_signals_wiring_witness :
  let w := onload V011.build 0 1 {| idleTimeoutMs := 0 |} in
  loaded w = true ∧
  step V011.build w (Activity KeyDown) =
    call_reset V011.build (FromSignal KeyDown) w.
Proof.
  cbn zeta. split; [reflexivity|].
  destruct activity_signals_wiring as (H & _).
  apply H; [reflexivity | discriminate].
Defined.

(** C8, counterexample in the last revision: a key press 100 ms after
    [onload] calls nothing (the countdown started by [onload] is still due at
    60000 ms), and two edits 100 ms apart lead to one call of
    [resetIdleTimer], so edits are coalesced although they are not pointer
    moves. *)
Lemma key_press_does_not_reset :
  let w0 := onload current 0 1 {| idleTimeoutMs := 60000 |} in
  let w := run current w0 [Elapse 100; Activity KeyDown] in
  let w' := run current w0 [Activity EditorChange; Elapse 100;
                            Activity EditorChange; Elapse 500; DebounceFire] in
  resets w = [(0, FromLoad)] ∧
  timers w = [{| handle := 1; due := 60000 |}] ∧ debouncer w = None ∧
  w ≠ call_reset current (FromSignal KeyDown) (run current w0 [Elapse 100]) ∧
  resets w' = [(600, FromDebounce); (0, FromLoad)].
Proof.
  cbn zeta. split; [by vm_compute|]. split; [by vm_compute|].
  split; [by vm_compute|]. split; [|by vm_compute].
  intros H. apply (f_equal resets) in H. vm_compute in H. discriminate.
Qed.

(* ===================================================================== *)
(** * Further properties of the commands *)
(* ===================================================================== *)

Lemma getLine_setLine_other (e : Editor) (n k : nat) (text : jsstring) :
  k ≠ n → getLine (setLine e n text) k = getLine e k.
Proof.
  intros Hk. unfold getLine, setLine; simpl.
  by rewrite list_lookup_insert_ne.
Qed.

Lemma getLine_outside (e : Editor) (n : nat) :
  (length (doc e) ≤ n)%nat → getLine e n = [].
Proof. intros Hn. unfold getLine. by rewrite lookup_ge_None_2. Qed.

Lemma marker_match_nil : marker_match [] = None.
Proof. reflexivity. Qed.

Lemma marker_match_fixed (l m : jsstring) :
  marker_match l = Some m → marker_match m = Some m.
Proof.
  intros Hm. rewrite <- (app_nil_r m) at 1. by eapply marker_match_extend.
Qed.

(** X1.  The command [Empty current line content except marker] is
    idempotent: a second invocation changes nothing. *)
Theorem empty_except_marker_idempotent (e : Editor) :
  empty_current_line_content_except_marker
    (empty_current_line_content_except_marker e) =
  empty_current_line_content_except_marker e.
Proof.
  set (n := line (getCursor e)).
  assert (∀ t, marker_match t = None ∨ t = [] →
            marker_match (getLine (setLine e n t) n) = None) as Hnone.
  { intros t Ht. destruct (decide (n < length (doc e))%nat) as [Hn|Hn].
    - rewrite getLine_setLine by done.
      destruct Ht as [Ht | ->]; [done | apply marker_match_nil].
    - rewrite getLine_outside by (unfold setLine; simpl; rewrite length_insert; lia).
      apply marker_match_nil. }
  destruct (marker_match (getLine e n)) as [m|] eqn:Em.
  - destruct (str_eqb (trim (getLine e n)) (trim m)) eqn:Et.
    + assert (empty_current_line_content_except_marker e = e) as Hcmd
        by (unfold empty_current_line_content_except_marker; fold n;
            by rewrite Em, Et).
      by rewrite !Hcmd.
    + assert (empty_current_line_content_except_marker e =
              setCursor (setLine e n m) {| line := n; ch := length m |})
        as Hcmd
        by (unfold empty_current_line_content_except_marker; fold n;
            by rewrite Em, Et).
      rewrite Hcmd. unfold empty_current_line_content_except_marker.
      cbn [getCursor setCursor sel_head line].
      change (getLine (setCursor (setLine e n m) _) n)
        with (getLine (setLine e n m) n).
      destruct (decide (n < length (doc e))%nat) as [Hn|Hn].
      * rewrite getLine_setLine by done.
        rewrite (marker_match_fixed _ _ Em).
        unfold str_eqb. by rewrite bool_decide_eq_true_2.
      * exfalso. rewrite getLine_outside in Em by lia.
        by rewrite marker_match_nil in Em.
  - assert (empty_current_line_content_except_marker e =
            setCursor (setLine e n []) {| line := n; ch := 0 |}) as Hcmd
      by (unfold empty_current_line_content_except_marker; fold n;
          by rewrite Em).
    rewrite Hcmd. unfold empty_current_line_content_except_marker.
    cbn [getCursor setCursor sel_head line].
    change (getLine (setCursor (setLine e n []) _) n)
      with (getLine (setLine e n []) n).
    rewrite Hnone by (by right).
    unfold setCursor. f_equal. simpl.
    destruct (decide (n < length (doc e))%nat) as [Hn|Hn].
    + by rewrite list_insert_insert_eq.
    + by rewrite !list_insert_ge by (rewrite ?length_insert; lia).
Qed.

(** X2.  The two line commands of the last revision touch nothing but the
    text of the cursor's line: every other line keeps its text, the number
    of lines is kept, the cursor stays on its line, and a cursor that was at
    a position of the document is at a position of the document
    afterwards. *)
Theorem line_commands_frame (e : Editor) (k : nat) :
  pos_in_doc e (getCursor e) →
  let n := line (getCursor e) in
  let e1 := empty_current_line_content_except_marker e in
  let e2 := clear_current_line_for_new_format e in
  (k ≠ n → getLine e1 k = getLine e k ∧ getLine e2 k = getLine e k) ∧
  length (doc e1) = length (doc e) ∧ length (doc e2) = length (doc e) ∧
  line (getCursor e1) = n ∧ line (getCursor e2) = n ∧
  pos_in_doc e1 (getCursor e1) ∧ pos_in_doc e2 (getCursor e2).
Proof.
  intros (l & Hl & Hch) n e1 e2. fold n in Hl.
  assert (n < length (doc e))%nat as Hn by (by eapply lookup_lt_Some).
  assert (getLine e n = l) as Hg by (unfold getLine; by rewrite Hl).
  assert (∀ t c, (c ≤ length t)%nat →
            pos_in_doc (setCursor (setLine e n t) {| line := n; ch := c |})
              {| line := n; ch := c |}) as Hpos.
  { intros t c Hc. exists t. split; [|done]. simpl.
    by rewrite list_lookup_insert_eq. }
  subst e1 e2.
  unfold empty_current_line_content_except_marker,
    clear_current_line_for_new_format. fold n. rewrite Hg.
  destruct (marker_match l) as [m|] eqn:Em;
    [destruct (str_eqb (trim l) (trim m))|].
  - split; [intros Hk; split; [done | by apply getLine_setLine_other]|].
    split; [done|]. split; [simpl; by rewrite length_insert|].
    split; [done|]. split; [done|]. split; [by exists l|]. by apply Hpos.
  - split; [intros Hk; split; by apply getLine_setLine_other|].
    split; [simpl; by rewrite length_insert|].
    split; [simpl; by rewrite length_insert|].
    split; [done|]. split; [done|]. split; by apply Hpos.
  - split; [intros Hk; split; by apply getLine_setLine_other|].
    split; [simpl; by rewrite length_insert|].
    split; [simpl; by rewrite length_insert|].
    split; [done|]. split; [done|]. split; by apply Hpos.
Qed.

Lemma line_commands_frame_witness :
  let e := {| doc := [js "# Title"; js "- done"; js "tail"];
              sel_anchor := {| line := 1; ch := 4 |};
              sel_head := {| line := 1; ch := 4 |} |} in
  pos_in_doc e (getCursor e) ∧
  getLine (empty_current_line_content_except_marker e) 0 = js "# Title" ∧
  getLine (clear_current_line_for_new_format e) 0 = js "# Title".
Proof.
  cbn zeta.
  assert (pos_in_doc
            {| doc := [js "# Title"; js "- done"; js "tail"];
               sel_anchor := {| line := 1; ch := 4 |};
               sel_head := {| line := 1; ch := 4 |} |}
            {| line := 1; ch := 4 |}) as Hp.
  { exists (js "- done"). split; [reflexivity | simpl; lia]. }
  split; [exact Hp|].
  destruct (line_commands_frame _ 0%nat Hp) as (H & _).
  apply H. simpl. lia.
Defined.

Lemma take_while_white_marker (ws body t : jsstring) :
  Forall (λ c, is_white c = true) ws → marker_body body →
  take_while is_white (ws ++ body ++ t) = ws.
Proof.
  intros Hws Hbody.
  destruct (marker_body_head body Hbody) as (c & b1 & -> & Hc).
  rewrite take_while_app by done. cbn [app].
  by rewrite take_while_stop, app_nil_r.
Qed.

(** X3.  [Empty current line content except marker] never removes, adds or
    changes a marker: the marker found on the cursor's line after the
    command is the one found before it, and when there is one the
    indentation (the leading white space) of the line is kept. *)
Theorem empty_except_marker_keeps_marker (e : Editor) :
  cursor_in_doc e →
  let n := line (getCursor e) in
  let e' := empty_current_line_content_except_marker e in
  marker_match (getLine e' n) = marker_match (getLine e n) ∧
  (is_Some (marker_match (getLine e n)) →
     take_while is_white (getLine e' n) = take_while is_white (getLine e n)).
Proof.
  intros Hin n e'. unfold cursor_in_doc in Hin. fold n in Hin. subst e'.
  unfold empty_current_line_content_except_marker. fold n.
  destruct (marker_match (getLine e n)) as [m|] eqn:Em.
  - destruct (str_eqb (trim (getLine e n)) (trim m)).
    + by rewrite Em.
    + change (getLine (setCursor (setLine e n m) _) n)
        with (getLine (setLine e n m) n).
      rewrite getLine_setLine by done.
      split; [by eapply marker_match_fixed|]. intros _.
      apply marker_match_shape in Em
        as (ws & body & u & rest & -> & -> & Hws & Hbody & Hu).
      by rewrite !take_while_white_marker.
  - change (getLine (setCursor (setLine e n []) _) n)
      with (getLine (setLine e n []) n).
    rewrite getLine_setLine by done.
    split; [apply marker_match_nil|]. by intros [? ?].
Qed.

Lemma empty_except_marker_keeps_marker_witness :
  let e := one_line (js "  3. buy milk") 7 in
  cursor_in_doc e ∧
  marker_match (getLine (empty_current_line_content_except_marker e) 0) =
    Some (js "  3. ").
Proof.
  cbn zeta.
  assert (cursor_in_doc (one_line (js "  3. buy milk") 7)) as Hin
    by (unfold cursor_in_doc; simpl; lia).
  split; [exact Hin|].
  destruct (empty_except_marker_keeps_marker _ Hin) as [H _].
  etransitivity; [exact H | reflexivity].
Defined.

Lemma marker_match_blank (l : jsstring) :
  Forall (λ c, is_white c = true) l → marker_match l = None.
Proof.
  intros Hl. rewrite marker_match_direct. unfold spec_marker_prefix.
  apply drop_while_nil in Hl. by rewrite Hl.
Qed.

(** X4.  On a line that is empty or holds white space only, no marker is
    found, so the marker-aware command empties the line and puts the cursor
    at column 0, as the plain clear command does. *)
Theorem empty_except_marker_blank_line (e : Editor) :
  cursor_in_doc e →
  Forall (λ c, is_white c = true) (getLine e (line (getCursor e))) →
  marker_match (getLine e (line (getCursor e))) = None ∧
  empty_current_line_content_except_marker e =
    clear_current_line_for_new_format e ∧
  getLine (empty_current_line_content_except_marker e) (line (getCursor e)) = [].
Proof.
  intros Hin Hl. pose proof (marker_match_blank _ Hl) as Hm.
  split; [done|].
  assert (empty_current_line_content_except_marker e =
          clear_current_line_for_new_format e) as Heq
    by (unfold empty_current_line_content_except_marker; by rewrite Hm).
  split; [done|]. rewrite Heq.
  by apply clear_current_line_spec.
Qed.

Lemma empty_except_marker_blank_line_witness :
  let e := one_line (js "   ") 2 in
  cursor_in_doc e ∧
  Forall (λ c, is_white c = true) (getLine e (line (getCursor e))) ∧
  getLine (empty_current_line_content_except_marker e) 0 = [].
Proof.
  cbn zeta.
  assert (cursor_in_doc (one_line (js "   ") 2)) as Hin
    by (unfold cursor_in_doc; simpl; lia).
  assert (Forall (λ c, is_white c = true)
            (getLine (one_line (js "   ") 2)
               (line (getCursor (one_line (js "   ") 2))))) as Hl
    by (repeat constructor).
  split; [exact Hin|]. split; [exact Hl|].
  destruct (empty_except_marker_blank_line _ Hin Hl) as (_ & _ & H).
  exact H.
Defined.

(** X5.  The marker-aware command and the plain clear command give the same
    editor exactly on the lines where no marker is found. *)
Theorem empty_except_marker_vs_clear (e : Editor) :
  cursor_in_doc e →
  empty_current_line_content_except_marker e =
    clear_current_line_for_new_format e ↔
  marker_match (getLine e (line (getCursor e))) = None.
Proof.
  intros Hin. unfold cursor_in_doc in Hin.
  set (n := line (getCursor e)) in *. split.
  - intros Heq. destruct (marker_match (getLine e n)) as [m|] eqn:Em; [|done].
    exfalso. apply (f_equal (λ x, getLine x n)) in Heq.
    unfold clear_current_line_for_new_format in Heq. fold n in Heq.
    change (getLine (setCursor (setLine e n []) _) n)
      with (getLine (setLine e n []) n) in Heq.
    rewrite getLine_setLine in Heq by done.
    pose proof Em as Hshape.
    apply marker_match_shape in Hshape
      as (ws & body & u & rest & Hl & -> & _ & _ & _).
    unfold empty_current_line_content_except_marker in Heq. fold n in Heq.
    rewrite Em in Heq.
    destruct (str_eqb (trim (getLine e n)) (trim (ws ++ body ++ [u]))).
    + rewrite Hl in Heq. by destruct ws, body.
    + change (getLine (setCursor (setLine e n ?t) _) n)
        with (getLine (setLine e n t) n) in Heq.
      rewrite getLine_setLine in Heq by done. by destruct ws, body.
  - intros Hm. unfold empty_current_line_content_except_marker. fold n.
    by rewrite Hm.
Qed.

Lemma empty_except_marker_vs_clear_witness :
  let e := one_line (js "plain") 3 in
  cursor_in_doc e ∧
  empty_current_line_content_except_marker e =
    clear_current_line_for_new_format e.
Proof.
  cbn zeta.
  assert (cursor_in_doc (one_line (js "plain") 3)) as Hin
    by (unfold cursor_in_doc; simpl; lia).
  split; [exact Hin|].
  apply (empty_except_marker_vs_clear _ Hin). reflexivity.
Defined.

(** X6.  What every matched marker looks like, and what it depends on: it
    is at least two code units long, it ends with a white-space character,
    it holds a character that is not white space, and the text after it
    has no influence on it (any other text after the same prefix gives the
    same match; in particular the marker alone matches itself). *)
Theorem marker_match_prefix_only (l m : jsstring) :
  marker_match l = Some m →
  (2 ≤ length m)%nat ∧
  (∃ u, last m = Some u ∧ is_white u = true) ∧
  Exists (λ c, is_white c = false) m ∧
  (∀ rest, marker_match (m ++ rest) = Some m) ∧
  marker_match m = Some m.
Proof.
  intros Hm. pose proof Hm as Hshape.
  apply marker_match_shape in Hshape
    as (ws & body & u & rest & -> & -> & Hws & Hbody & Hu).
  destruct (marker_body_head body Hbody) as (c & b1 & -> & Hc).
  split; [rewrite !length_app; simpl; lia|].
  split; [exists u; split; [|done]; by rewrite !app_assoc, last_snoc|].
  split; [apply Exists_app; right; by constructor|].
  split; [intros rest'; by eapply marker_match_extend|].
  by eapply marker_match_fixed.
Qed.

Lemma marker_match_prefix_only_witness :
  marker_match (js "## Heading") = Some (js "## ") ∧
  marker_match (js "## " ++ js "other text") = Some (js "## ").
Proof.
  assert (marker_match (js "## Heading") = Some (js "## ")) as Hm
    by reflexivity.
  split; [exact Hm|].
  destruct (marker_match_prefix_only _ _ Hm) as (_ & _ & _ & H & _).
  apply H.
Defined.

(** X7.  Invoked twice in a row with nothing selected at first, [Select
    line / Cancel selection] ends with nothing selected and the cursor at
    the end of the text of the line it started on; the document is
    untouched.  (The first invocation selects the content, the second
    collapses the selection to its end; on a line with no content after the
    marker both invocations put the cursor there.) *)
Theorem select_twice_moves_to_line_end (e : Editor) :
  somethingSelected e = false →
  let n := line (getCursor e) in
  let e2 := select_current_line_or_cancel (select_current_line_or_cancel e) in
  doc e2 = doc e ∧ somethingSelected e2 = false ∧
  getCursor e2 = {| line := n; ch := length (getLine e n) |}.
Proof.
  intros Hsel n e2. subst e2.
  set (l := getLine e n).
  set (startCh := match marker_match l with Some m => length m | None => 0%nat end).
  assert (startCh ≤ length l)%nat as Hle.
  { subst startCh. destruct (marker_match l) as [m|] eqn:Em; [|lia].
    destruct (marker_match_prefix l m Em) as [rest ->].
    rewrite length_app. lia. }
  assert (select_current_line_or_cancel e =
          setSelection e {| line := n; ch := startCh |}
            {| line := n; ch := length l |}) as ->
    by (unfold select_current_line_or_cancel; by rewrite Hsel).
  set (e1 := setSelection e {| line := n; ch := startCh |}
               {| line := n; ch := length l |}).
  assert (select_current_line_or_cancel e1 =
          setCursor e1 {| line := n; ch := length l |} ∨
          select_current_line_or_cancel e1 =
          setSelection e1 {| line := n; ch := length l |}
            {| line := n; ch := length l |}) as Hcases.
  { unfold select_current_line_or_cancel, somethingSelected, pos_eqb.
    cbn [e1 setSelection sel_anchor sel_head line ch getCursor].
    rewrite Nat.eqb_refl. cbn [andb].
    destruct (startCh =? length l)%nat eqn:Es; cbn [negb].
    - right. apply Nat.eqb_eq in Es.
      change (getLine e1 n) with l. fold startCh. by rewrite Es.
    - left. apply Nat.eqb_neq in Es.
      unfold getCursor_to, pos_leb. cbn [setSelection sel_anchor sel_head line ch].
      rewrite Nat.ltb_irrefl, Nat.eqb_refl.
      cbn [e1 setSelection sel_anchor sel_head ch orb andb].
      by replace (startCh <=? length l)%nat with true by lia. }
  destruct Hcases as [-> | ->].
  - split; [done|]. split; [|done].
    unfold somethingSelected, pos_eqb; simpl. by rewrite !Nat.eqb_refl.
  - split; [done|]. split; [|done].
    unfold somethingSelected, pos_eqb; simpl. by rewrite !Nat.eqb_refl.
Qed.

Lemma select_twice_moves_to_line_end_witness :
  let e := one_line (js "- hello") 3 in
  somethingSelected e = false ∧
  getCursor (select_current_line_or_cancel (select_current_line_or_cancel e))
    = {| line := 0; ch := 7 |}.
Proof.
  cbn zeta.
  assert (somethingSelected (one_line (js "- hello") 3) = false) as Hs
    by reflexivity.
  split; [exact Hs|].
  destruct (select_twice_moves_to_line_end _ Hs) as (_ & _ & H).
  exact H.
Defined.

(* ===================================================================== *)
(** * The commands of the earlier revisions *)
(* ===================================================================== *)

Lemma split_lines_nonempty (s : jsstring) : split_lines s ≠ [].
Proof.
  destruct s as [|u s]; cbn; [done|].
  destruct (u =? newline)%N; [done|]. by destruct (split_lines s).
Qed.

Lemma join_cons_char u (l : jsstring) (ls : list jsstring) :
  join_lines ((u :: l) :: ls) = u :: join_lines (l :: ls).
Proof. by destruct ls. Qed.

Lemma join_split (s : jsstring) : join_lines (split_lines s) = s.
Proof.
  induction s as [|u s IH]; [done|]. cbn [split_lines].
  destruct (u =? newline)%N eqn:Eu.
  - assert (u = newline) as -> by lia.
    pose proof (split_lines_nonempty s) as Hne.
    destruct (split_lines s) as [|l ls] eqn:Es; [done|].
    cbn [join_lines app]. cbn [join_lines] in IH. by rewrite IH.
  - pose proof (split_lines_nonempty s) as Hne.
    destruct (split_lines s) as [|l ls] eqn:Es; [done|].
    by rewrite join_cons_char, IH.
Qed.

Lemma split_no_feed (l : jsstring) : newline ∉ l → split_lines l = [l].
Proof.
  induction l as [|u l IH]; [done|]. intros Hn.
  apply not_elem_of_cons in Hn as [Hu Hl]. cbn [split_lines].
  assert ((u =? newline)%N = false) as -> by lia. by rewrite IH.
Qed.

Lemma split_at_feed (l t : jsstring) :
  newline ∉ l → split_lines (l ++ newline :: t) = l :: split_lines t.
Proof.
  induction l as [|u l IH]; [done|]. intros Hn.
  apply not_elem_of_cons in Hn as [Hu Hl]. cbn [split_lines app].
  assert ((u =? newline)%N = false) as -> by lia. by rewrite IH.
Qed.

Lemma split_join (ls : list jsstring) :
  ls ≠ [] → Forall (λ l : jsstring, newline ∉ l) ls →
  split_lines (join_lines ls) = ls.
Proof.
  intros Hne Hall. induction Hall as [|l ls Hl Hall IH]; [done|].
  destruct ls as [|l' ls'].
  - cbn. by apply split_no_feed.
  - change (join_lines (l :: l' :: ls'))
      with (l ++ newline :: join_lines (l' :: ls')).
    rewrite split_at_feed by done. by rewrite IH.
Qed.

Lemma split_lines_no_feed (s : jsstring) :
  Forall (λ l : jsstring, newline ∉ l) (split_lines s).
Proof.
  induction s as [|u s IH]; cbn [split_lines].
  - repeat constructor. apply not_elem_of_nil.
  - destruct (u =? newline)%N eqn:Eu.
    + constructor; [apply not_elem_of_nil | done].
    + pose proof (split_lines_nonempty s) as Hne.
      destruct (split_lines s) as [|l ls]; [done|].
      apply Forall_cons in IH as [Hl Hls]. constructor; [|done].
      apply not_elem_of_cons. split; [lia | done].
Qed.

(** X8.  [split('\n')] and [join('\n')], as [delete-current-line] uses them
    on the text of the document, undo each other: joining the lines of a
    text gives the text back, and splitting the joined lines of a document
    (at least one line, no line feed inside a line) gives the lines back.
    The empty list of lines is the exception: joined and split again it is
    one empty line. *)
Theorem split_join_round_trip :
  (∀ s, join_lines (split_lines s) = s) ∧
  (∀ ls, ls ≠ [] → Forall (λ l : jsstring, newline ∉ l) ls →
     split_lines (join_lines ls) = ls) ∧
  (∀ s, split_lines s ≠ [] ∧
        Forall (λ l : jsstring, newline ∉ l) (split_lines s)) ∧
  split_lines (join_lines []) = [[]].
Proof.
  split; [apply join_split|]. split; [apply split_join|].
  split; [|done]. intros s.
  split; [apply split_lines_nonempty | apply split_lines_no_feed].
Qed.

Lemma split_join_round_trip_witness :
  split_lines (join_lines [js "a"; []; js "b c"]) = [js "a"; []; js "b c"].
Proof.
  destruct split_join_round_trip as (_ & H & _).
  apply H; [discriminate|].
  repeat constructor; intros Hin; vm_compute in Hin;
    repeat (apply elem_of_cons in Hin as [Hin|Hin]; [discriminate|]);
    by apply elem_of_nil in Hin.
Defined.

Lemma setCursor_nothing_selected (e : Editor) (p : EditorPosition) :
  somethingSelected (setCursor e p) = false.
Proof.
  unfold somethingSelected, pos_eqb; simpl. by rewrite !Nat.eqb_refl.
Qed.

Lemma getValue_split (e : Editor) :
  doc_ok e → split_lines (getValue e) = doc e.
Proof. intros [Hne Hall]. by apply split_join. Qed.

Lemma delete_current_line_lines (e : Editor) :
  doc_ok e → cursor_in_doc e →
  let n := line (getCursor e) in
  let e' := V010.delete_current_line e in
  doc e' = (if decide (length (doc e) = 1%nat) then [[]]
            else delete n (doc e)) ∧
  length (doc e') = Nat.max 1 (length (doc e) - 1) ∧
  doc_ok e' ∧ somethingSelected e' = false.
Proof.
  intros Hok Hin n e'. unfold cursor_in_doc in Hin. fold n in Hin.
  assert (doc e' = split_lines (join_lines (delete n (doc e)))) as Hdoc.
  { subst e'. unfold V010.delete_current_line. fold n.
    rewrite getValue_split by done.
    destruct (n <? length (delete n (doc e)))%nat; [done|].
    by destruct (0 <? length (delete n (doc e)))%nat. }
  assert (somethingSelected e' = false) as Hsel.
  { subst e'. unfold V010.delete_current_line. fold n.
    destruct (n <? _)%nat; [|destruct (0 <? _)%nat];
      apply setCursor_nothing_selected. }
  assert (length (delete n (doc e)) = (length (doc e) - 1)%nat) as Hlen
    by (apply length_delete; by apply lookup_lt_is_Some).
  assert (doc_ok e') as Hok'.
  { unfold doc_ok. rewrite Hdoc.
    split; [apply split_lines_nonempty | apply split_lines_no_feed]. }
  destruct Hok as [Hne Hall].
  destruct (decide (length (doc e) = 1%nat)) as [H1|H1].
  - assert (delete n (doc e) = []) as Hd
      by (apply length_zero_iff_nil; lia).
    assert (doc e' = [[]]) as Hdoc' by (by rewrite Hdoc, Hd).
    rewrite Hdoc', H1. split; [done|]. split; [done|]. by split.
  - assert (doc e' = delete n (doc e)) as Hdoc'.
    { rewrite Hdoc. apply split_join; [|by apply Forall_delete].
      intros Hd. apply (f_equal length) in Hd. rewrite Hlen in Hd.
      cbn in Hd. lia. }
    rewrite Hdoc'. split; [done|]. split; [rewrite Hlen; lia|].
    split; [done|]. exact Hsel.
Qed.

(** X9.  [delete-current-line] on a document of two or more lines removes
    exactly the cursor's line; on a document of one line it leaves one empty
    line.  The result is again a document (at least one line, no line feed
    inside a line) and nothing is selected. *)
Theorem delete_current_line_doc (e : Editor) :
  doc_ok e → cursor_in_doc e →
  let n := line (getCursor e) in
  let e' := V010.delete_current_line e in
  doc e' = (if decide (length (doc e) = 1%nat) then [[]]
            else delete n (doc e)) ∧
  length (doc e') = Nat.max 1 (length (doc e) - 1) ∧
  doc_ok e' ∧ somethingSelected e' = false.
Proof. apply delete_current_line_lines. Qed.

Lemma delete_current_line_doc_witness :
  let e := {| doc := [js "one"; js "two"; js "three"];
              sel_anchor := {| line := 1; ch := 2 |};
              sel_head := {| line := 1; ch := 2 |} |} in
  doc_ok e ∧ cursor_in_doc e ∧
  doc (V010.delete_current_line e) = [js "one"; js "three"].
Proof.
  cbn zeta.
  set (e := {| doc := [js "one"; js "two"; js "three"];
               sel_anchor := {| line := 1; ch := 2 |};
               sel_head := {| line := 1; ch := 2 |} |}).
  assert (doc_ok e) as Hok.
  { split; [discriminate|].
    repeat constructor; intros Hin; vm_compute in Hin;
      repeat (apply elem_of_cons in Hin as [Hin|Hin]; [discriminate|]);
      by apply elem_of_nil in Hin. }
  assert (cursor_in_doc e) as Hin by (unfold cursor_in_doc; simpl; lia).
  split; [exact Hok|]. split; [exact Hin|].
  destruct (delete_current_line_doc e Hok Hin) as (H & _).
  exact H.
Defined.

(** X10.  Where [delete-current-line] leaves the cursor: at column 0 of the
    same line number, which now holds the line that followed, when the
    deleted line was not the last; at the end of the new last line when the
    last of several lines was deleted; at line 0, column 0 when the only
    line was deleted.  In every case the cursor is at a position of the new
    document. *)
Theorem delete_current_line_cursor (e : Editor) :
  doc_ok e → cursor_in_doc e →
  let n := line (getCursor e) in
  let e' := V010.delete_current_line e in
  ((n + 1 < length (doc e))%nat →
     getCursor e' = {| line := n; ch := 0 |} ∧
     getLine e' n = getLine e (n + 1)) ∧
  ((n + 1 = length (doc e))%nat → (2 ≤ length (doc e))%nat →
     getCursor e' = {| line := n - 1; ch := length (getLine e (n - 1)) |} ∧
     getLine e' (n - 1) = getLine e (n - 1)) ∧
  (length (doc e) = 1%nat → getCursor e' = {| line := 0; ch := 0 |}) ∧
  pos_in_doc e' (getCursor e').
Proof.
  intros Hok Hin n e'.
  destruct (delete_current_line_lines e Hok Hin) as (Hdoc & _ & _ & _).
  fold n e' in Hdoc. unfold cursor_in_doc in Hin. fold n in Hin.
  assert (length (delete n (doc e)) = (length (doc e) - 1)%nat) as Hlen
    by (apply length_delete; by apply lookup_lt_is_Some).
  assert (getCursor e' =
          if (n <? length (doc e) - 1)%nat then {| line := n; ch := 0 |}
          else if (0 <? length (doc e) - 1)%nat then
            {| line := length (doc e) - 1 - 1;
               ch := length (default [] (delete n (doc e)
                                           !! (length (doc e) - 1 - 1)%nat)) |}
          else {| line := 0; ch := 0 |}) as Hcur.
  { subst e'. unfold V010.delete_current_line. fold n.
    rewrite getValue_split by done. rewrite Hlen.
    destruct (n <? _)%nat; [done|]. by destruct (0 <? _)%nat. }
  assert ((n + 1 < length (doc e))%nat →
          getCursor e' = {| line := n; ch := 0 |} ∧
          getLine e' n = getLine e (n + 1)) as H1.
  { intros Hn. rewrite Hcur.
    replace (n <? length (doc e) - 1)%nat with true by lia.
    split; [done|]. unfold getLine. rewrite Hdoc.
    rewrite decide_False by lia.
    rewrite list_lookup_delete_ge by lia. by rewrite Nat.add_1_r. }
  assert ((n + 1 = length (doc e))%nat → (2 ≤ length (doc e))%nat →
          getCursor e' = {| line := n - 1; ch := length (getLine e (n - 1)) |} ∧
          getLine e' (n - 1) = getLine e (n - 1)) as H2.
  { intros Hn H2. rewrite Hcur.
    replace (n <? length (doc e) - 1)%nat with false by lia.
    replace (0 <? length (doc e) - 1)%nat with true by lia.
    replace (length (doc e) - 1 - 1)%nat with (n - 1)%nat by lia.
    unfold getLine. rewrite Hdoc. rewrite decide_False by lia.
    by rewrite list_lookup_delete_lt by lia. }
  assert (length (doc e) = 1%nat → getCursor e' = {| line := 0; ch := 0 |})
    as H3.
  { intros Hn. rewrite Hcur.
    replace (n <? length (doc e) - 1)%nat with false by lia.
    by replace (0 <? length (doc e) - 1)%nat with false by lia. }
  split; [done|]. split; [done|]. split; [done|].
  destruct (decide (n + 1 < length (doc e))%nat) as [Hn|Hn].
  - destruct (H1 Hn) as [-> Hl]. unfold pos_in_doc; cbn [line ch].
    destruct (doc e' !! n) as [l|] eqn:El; [exists l; split; [done | lia]|].
    exfalso. apply lookup_ge_None in El. rewrite Hdoc in El.
    rewrite decide_False in El by lia. lia.
  - destruct (decide (length (doc e) = 1%nat)) as [Hone|Hone].
    + rewrite (H3 Hone). exists []. rewrite Hdoc.
      split; [done | simpl; lia].
    + destruct H2 as [-> Hl]; [lia | lia |]. unfold pos_in_doc; cbn [line ch].
      unfold getLine in Hl |- *.
      destruct (doc e' !! (n - 1)%nat) as [l|] eqn:El.
      * exists l. split; [done|]. cbn in Hl. by rewrite <- Hl.
      * exfalso. apply lookup_ge_None in El. rewrite Hdoc in El. lia.
Qed.

Lemma delete_current_line_cursor_witness :
  let e := {| doc := [js "one"; js "two"; js "three"];
              sel_anchor := {| line := 2; ch := 1 |};
              sel_head := {| line := 2; ch := 1 |} |} in
  doc_ok e ∧ cursor_in_doc e ∧
  getCursor (V010.delete_current_line e) = {| line := 1; ch := 3 |}.
Proof.
  cbn zeta.
  set (e := {| doc := [js "one"; js "two"; js "three"];
               sel_anchor := {| line := 2; ch := 1 |};
               sel_head := {| line := 2; ch := 1 |} |}).
  assert (doc_ok e) as Hok.
  { split; [discriminate|].
    repeat constructor; intros Hin; vm_compute in Hin;
      repeat (apply elem_of_cons in Hin as [Hin|Hin]; [discriminate|]);
      by apply elem_of_nil in Hin. }
  assert (cursor_in_doc e) as Hin by (unfold cursor_in_doc; simpl; lia).
  split; [exact Hok|]. split; [exact Hin|].
  destruct (delete_current_line_cursor e Hok Hin) as (_ & H & _).
  destruct H as [H _]; [reflexivity | simpl; lia |]. exact H.
Defined.

(** X11.  [select-current-line] of revision 0.1.0 selects from column 0 of
    the cursor's line to column 0 of the next line, so with the line break,
    and on the last line to the end of its text.  The selection runs
    forward, ends at a position of the document, leaves the document as it
    is, and is empty only on an empty last line. *)
Theorem select_current_line_spec (e : Editor) :
  cursor_in_doc e →
  let n := line (getCursor e) in
  let e' := V010.select_current_line e in
  doc e' = doc e ∧ sel_anchor e' = {| line := n; ch := 0 |} ∧
  ((n + 1 < length (doc e))%nat → sel_head e' = {| line := n + 1; ch := 0 |}) ∧
  ((n + 1 = length (doc e))%nat →
     sel_head e' = {| line := n; ch := length (getLine e n) |}) ∧
  pos_leb (sel_anchor e') (sel_head e') = true ∧
  pos_in_doc e' (sel_head e') ∧
  (somethingSelected e' = false ↔
     (n + 1 = length (doc e))%nat ∧ getLine e n = []).
Proof.
  intros Hin n e'. unfold cursor_in_doc in Hin. fold n in Hin.
  subst e'. unfold V010.select_current_line. fold n.
  destruct (n <? length (doc e) - 1)%nat eqn:En.
  - assert (n + 1 < length (doc e))%nat as Hn by lia.
    cbn [setSelection doc sel_anchor sel_head].
    split; [done|]. split; [done|]. split; [done|]. split; [lia|].
    split; [unfold pos_leb; simpl; lia|]. split.
    + unfold pos_in_doc; cbn [line ch].
      destruct (lookup_lt_is_Some_2 (doc e) (n + 1)%nat Hn) as [l Hl].
      exists l. split; [done | lia].
    + unfold somethingSelected, pos_eqb; simpl. split; [lia | lia].
  - assert (n + 1 = length (doc e))%nat as Hn by lia.
    cbn [setSelection doc sel_anchor sel_head].
    split; [done|]. split; [done|]. split; [lia|]. split; [done|].
    split; [unfold pos_leb; simpl; lia|]. split.
    + unfold pos_in_doc, getLine; cbn [line ch].
      destruct (lookup_lt_is_Some_2 (doc e) n Hin) as [l Hl].
      exists l. rewrite Hl. split; [done | simpl; lia].
    + unfold somethingSelected, pos_eqb; simpl. rewrite Nat.eqb_refl.
      cbn [andb]. destruct (getLine e n) as [|u l]; simpl.
      * split; [done | done].
      * split; [done | by intros [_ ?]].
Qed.

Lemma select_current_line_spec_witness :
  let e := {| doc := [js "one"; js "two"];
              sel_anchor := {| line := 0; ch := 2 |};
              sel_head := {| line := 0; ch := 2 |} |} in
  cursor_in_doc e ∧
  sel_head (V010.select_current_line e) = {| line := 1; ch := 0 |}.
Proof.
  cbn zeta.
  set (e := {| doc := [js "one"; js "two"];
               sel_anchor := {| line := 0; ch := 2 |};
               sel_head := {| line := 0; ch := 2 |} |}).
  assert (cursor_in_doc e) as Hin by (unfold cursor_in_doc; simpl; lia).
  split; [exact Hin|].
  destruct (select_current_line_spec e Hin) as (_ & _ & H & _).
  apply H. simpl. lia.
Defined.

(* ===================================================================== *)
(** * Further properties of the settings *)
(* ===================================================================== *)

Lemma loadSettings_saved (st : gmap string JsValue) :
  is_Some (st !! "idleTimeoutMs"%string) →
  loadSettings (saveSettings st) = st.
Proof.
  intros [v Hv]. rewrite loadSettings_union. cbn [saveSettings own_props].
  apply map_eq. intros k. unfold DEFAULT_SETTINGS.
  destruct (decide (k = "idleTimeoutMs"%string)) as [->|Hk].
  - rewrite Hv. by apply lookup_union_Some_l.
  - rewrite lookup_union_l; [done|]. by apply lookup_singleton_ne.
Qed.

Lemma loadSettings_idleTimeoutMs_some (data : JsValue) :
  is_Some (loadSettings data !! "idleTimeoutMs"%string).
Proof.
  rewrite loadSettings_union.
  destruct (own_props data !! "idleTimeoutMs"%string) as [v|] eqn:Ev.
  - rewrite (lookup_union_Some_l _ _ _ _ Ev). by eexists.
  - rewrite lookup_union_r by done. by eexists.
Qed.

(** X12.  Whatever the host hands back from the data file, the settings
    object has a field [idleTimeoutMs] after [loadSettings]; read through
    the interface it is the loaded number when the data hold a number
    there, the default 60000 when the data have no such field, and no
    number at all when the data hold something else there (nothing checks
    the loaded value). *)
Theorem loadSettings_idleTimeoutMs (data : JsValue) :
  is_Some (loadSettings data !! "idleTimeoutMs"%string) ∧
  as_settings (loadSettings data) =
    match own_props data !! "idleTimeoutMs"%string with
    | Some (JNumber z) => Some {| idleTimeoutMs := z |}
    | Some _ => None
    | None => Some {| idleTimeoutMs := 60000 |}
    end.
Proof.
  rewrite loadSettings_union. unfold as_settings.
  destruct (own_props data !! "idleTimeoutMs"%string) as [v|] eqn:Ev.
  - rewrite (lookup_union_Some_l _ _ _ _ Ev). split; [by eexists|].
    by destruct v.
  - rewrite lookup_union_r by done. split; [by eexists | done].
Qed.

(** X13.  Saving and loading again gives the settings back: a settings
    object with a field [idleTimeoutMs] survives [saveSettings] followed by
    [loadSettings] unchanged; this holds for every object [loadSettings]
    produced, and after the slider assigned a value the reloaded settings
    hold that value while every other field is kept. *)
Theorem settings_save_load (data : JsValue) (value : Z) :
  (∀ st, is_Some (st !! "idleTimeoutMs"%string) →
     loadSettings (saveSettings st) = st) ∧
  loadSettings (saveSettings (loadSettings data)) = loadSettings data ∧
  (let st' := loadSettings
                (saveSettings (assign_idleTimeoutMs value (loadSettings data))) in
   as_settings st' = Some {| idleTimeoutMs := value |} ∧
   ∀ k, k ≠ "idleTimeoutMs"%string → st' !! k = loadSettings data !! k).
Proof.
  split; [apply loadSettings_saved|].
  split; [apply loadSettings_saved, loadSettings_idleTimeoutMs_some|].
  cbn zeta. rewrite loadSettings_saved.
  - unfold assign_idleTimeoutMs, as_settings. rewrite lookup_insert_eq.
    split; [done|]. intros k Hk. by rewrite lookup_insert_ne.
  - unfold assign_idleTimeoutMs. rewrite lookup_insert_eq. by eexists.
Qed.

(* ===================================================================== *)
(** * Further properties of the idle scheduler *)
(* ===================================================================== *)

(** X14.  [resetIdleTimer] of revision 0.1.1: from a state that satisfies
    the invariant it cancels the pending timer and leaves exactly one timer,
    due IDLE_TIMEOUT_MS = 10000 ms from now, when [autoCenterEnabled] holds,
    and none otherwise; the settings play no part. *)
Theorem V011_resetIdleTimer_spec (w : World) :
  timers_ok w →
  let w' := V011.resetIdleTimer w in
  (if autoCenterEnabled w
   then timers w' = [{| handle := next_handle w; due := clock w + 10000 |}] ∧
        idleTimeout w' = Some (next_handle w)
   else timers w' = [] ∧ idleTimeout w' = None) ∧
  (∀ t, t ∈ timers w → t ∉ timers w') ∧
  timers_ok w'.
Proof.
  intros Hok w'. subst w'.
  pose proof (clear_idleTimeout_timers w Hok) as Hc.
  destruct (clear_idleTimeout_frame w) as (Hclk & Hnh & _ & _ & Hen & _).
  assert (if autoCenterEnabled w
          then timers (V011.resetIdleTimer w) =
                 [{| handle := next_handle w; due := clock w + 10000 |}] ∧
               idleTimeout (V011.resetIdleTimer w) = Some (next_handle w)
          else timers (V011.resetIdleTimer w) = [] ∧
               idleTimeout (V011.resetIdleTimer w) = None) as Hspec.
  { unfold V011.resetIdleTimer. rewrite Hen.
    destruct (autoCenterEnabled w).
    - unfold setTimeout_idle; cbn. by rewrite Hc, Hclk, Hnh.
    - unfold idleTimeout_null; cbn. by rewrite Hc. }
  split; [exact Hspec|]. split; [|by apply V011_resetIdleTimer_ok].
  intros t Hin Hin'. unfold timers_ok in Hok.
  destruct (timers w) as [|t0 [|t1 ts]]; [by apply elem_of_nil in Hin| |done].
  apply list_elem_of_singleton in Hin. subst t0. destruct Hok as [_ Hlt].
  destruct (autoCenterEnabled w); destruct Hspec as [Ht _]; rewrite Ht in Hin'.
  - apply list_elem_of_singleton in Hin'. subst t. cbn in Hlt. lia.
  - by apply elem_of_nil in Hin'.
Qed.

Lemma V011_resetIdleTimer_spec_witness :
  let w := run V011.build (onload V011.build 0 1 {| idleTimeoutMs := 0 |})
             [Elapse 250] in
  timers_ok w ∧
  timers (V011.resetIdleTimer w) = [{| handle := 2; due := 10250 |}].
Proof.
  cbn zeta.
  assert (timers_ok (run V011.build
                       (onload V011.build 0 1 {| idleTimeoutMs := 0 |})
                       [Elapse 250])) as Hok
    by (split; reflexivity).
  split; [exact Hok|].
  destruct (V011_resetIdleTimer_spec _ Hok) as (H & _).
  exact (proj1 H).
Defined.

Section Disabled.

Variable b : Build.
Hypothesis Hb : reset_sound b.
Hypothesis Hoff :
  ∀ w, timers_ok w → autoCenterEnabled w = false → timers (reset_timer b w) = [].

Lemma call_reset_disabled o w :
  timers_ok w → autoCenterEnabled (call_reset b o w) = false →
  timers (call_reset b o w) = [].
Proof.
  intros Hok Hen.
  destruct (call_reset_frame b Hb o w) as (_ & _ & He & _). rewrite He in Hen.
  unfold call_reset, set_resets; cbn. by apply Hoff.
Qed.

Lemma run_disabled es w :
  timers_ok w → (autoCenterEnabled w = false → timers w = []) →
  autoCenterEnabled (run b w es) = false → timers (run b w es) = [].
Proof.
  revert w. induction es as [|e es IH]; intros w Hok Hinv; [done|].
  cbn [run foldl]. apply IH.
  - by apply step_timers_ok.
  - destruct e as [dt|s| | | |v| |]; cbn [step].
    + done.
    + destruct (loaded w); [|done].
      destruct (wiring b s) as [[|]|]; [by apply call_reset_disabled | done | done].
    + destruct (debouncer w) as [d|]; [|done].
      destruct (d <=? clock w); [|done]. by apply call_reset_disabled.
    + destruct (pop_due (clock w) (timers w)) as [[t rest]|] eqn:Ep; [|done].
      cbn. intros Hen. specialize (Hinv Hen). rewrite Hinv in Ep. done.
    + destruct (loaded w); [|done]. by apply call_reset_disabled.
    + destruct (loaded w && setting_tab b); done.
    + destruct (saving w); [done|]. by apply call_reset_disabled.
    + destruct (loaded w); [|done]. intros _. cbn.
      by apply clear_idleTimeout_timers.
Qed.

End Disabled.

Lemma reset_off_current (w : World) :
  timers_ok w → autoCenterEnabled w = false → timers (resetIdleTimer w) = [].
Proof.
  intros Hok Hen. apply resetIdleTimer_idle; [done|]. by rewrite Hen.
Qed.

Lemma reset_off_V011 (w : World) :
  timers_ok w → autoCenterEnabled w = false →
  timers (V011.resetIdleTimer w) = [].
Proof.
  intros Hok Hen. unfold V011.resetIdleTimer.
  destruct (clear_idleTimeout_frame w) as (_ & _ & _ & _ & He & _).
  rewrite He, Hen. unfold idleTimeout_null; cbn.
  by apply clear_idleTimeout_timers.
Qed.

(** X15.  In both revisions, in every state reached from [onload], no idle
    timer is pending while auto-centering is disabled; so however much time
    passes and whatever the host delivers, the callback does not run in
    such a state. *)
Theorem no_timer_while_disabled (b : Build) (t0 : Z) (h0 : positive)
    (st : EditHelperPluginSettings) (es : list Event) :
  b = V011.build ∨ b = current →
  let w := run b (onload b t0 h0 st) es in
  autoCenterEnabled w = false →
  timers w = [] ∧
  ∀ dt, scrolls (run b w [Elapse dt; TimerFire]) = scrolls w.
Proof.
  intros Hbuild w Hen.
  assert (reset_sound b) as Hs
    by (destruct Hbuild as [-> | ->]; [apply V011_sound | apply current_sound]).
  assert (∀ w0, timers_ok w0 → autoCenterEnabled w0 = false →
            timers (reset_timer b w0) = []) as Hoff
    by (destruct Hbuild as [-> | ->]; [apply reset_off_V011 | apply reset_off_current]).
  assert (timers w = []) as Ht.
  { subst w. apply (run_disabled b Hs Hoff); [by apply onload_timers_ok | | done].
    apply (call_reset_disabled b Hs Hoff). by unfold timers_ok. }
  split; [done|]. intros dt. cbn [run foldl step].
  unfold set_clock; cbn [timers clock]. by rewrite Ht.
Qed.

Lemma no_timer_while_disabled_witness :
  let w := run current (onload current 0 1 {| idleTimeoutMs := 1000 |})
             [Elapse 10; ToggleCommand] in
  autoCenterEnabled w = false ∧ timers w = [].
Proof.
  cbn zeta. split; [reflexivity|].
  destruct (no_timer_while_disabled current 0 1 {| idleTimeoutMs := 1000 |}
              [Elapse 10; ToggleCommand]) as [H _].
  - by right.
  - reflexivity.
  - exact H.
Defined.

(** X16.  Unloading cancels the pending idle timer, and when at that moment
    no debounced call is pending and no [onChange] of the slider is waiting
    for [saveSettings], the callback never runs again, whatever happens
    afterwards. *)
Theorem unload_settled_is_final (w : World) (es : list Event) :
  timers_ok w → loaded w = true → debouncer w = None → saving w = 0%nat →
  timers (step current w Unload) = [] ∧
  scrolls (run current (step current w Unload) es) = scrolls w.
Proof.
  intros Hok Hl Hd Hs. cbn [step]. rewrite Hl.
  destruct (clear_idleTimeout_frame w) as (_ & _ & _ & _ & _ & Hd' & Hs' & _ & Hsc & _).
  pose proof (clear_idleTimeout_timers w Hok) as Ht.
  split; [exact Ht|].
  rewrite unloaded_settled_silent.
  - exact Hsc.
  - done.
  - cbn. unfold onunload. by rewrite Hd'.
  - cbn. unfold onunload. by rewrite Hs'.
  - exact Ht.
Qed.

Lemma unload_settled_is_final_witness :
  let w := run current (onload current 0 1 {| idleTimeoutMs := 1000 |})
             [Elapse 10] in
  timers_ok w ∧
  scrolls (run current (step current w Unload)
             [Elapse 5000; TimerFire; DebounceFire; SaveDone; TimerFire]) = [].
Proof.
  cbn zeta.
  assert (timers_ok (run current (onload current 0 1 {| idleTimeoutMs := 1000 |})
                       [Elapse 10])) as Hok
    by (split; reflexivity).
  split; [exact Hok|].
  destruct (unload_settled_is_final _
              [Elapse 5000; TimerFire; DebounceFire; SaveDone; TimerFire] Hok)
    as [_ H]; [reflexivity | reflexivity | reflexivity |].
  exact H.
Defined.

(** X17.  A change of the slider takes effect when [saveSettings] has
    resolved: from then on the timeout is the new value, and the countdown
    starts at that moment, with one timer due [value] milliseconds later
    when auto-centering is enabled and [value > 0], and with no timer
    otherwise (a value of 0 switches the timer off). *)
Theorem slider_change_takes_effect (w : World) (value : Z) (dt : N) :
  timers_ok w → loaded w = true → saving w = 0%nat →
  let w' := run current w [SliderChange value; Elapse dt; SaveDone] in
  idleTimeoutMs (settings w') = value ∧ saving w' = 0%nat ∧
  clock w' = clock w + Z.of_N dt ∧
  (if autoCenterEnabled w && (0 <? value)
   then timers w' = [{| handle := next_handle w; due := clock w' + value |}]
   else timers w' = []) ∧
  timers_ok w'.
Proof.
  intros Hok Hl Hs w'. subst w'. cbn [run foldl step].
  rewrite Hl. cbn [andb current setting_tab].
  cbn [set_saving set_settings set_clock saving clock]. rewrite Hs.
  set (w1 := set_saving 0
               (set_clock (clock w + Z.of_N dt)
                  (set_saving 1
                     (set_settings {| idleTimeoutMs := value |} w)))).
  assert (timers_ok w1) as Hok1 by exact Hok.
  destruct (call_reset_frame current current_sound FromSettingTab w1)
    as (Hc & Hst & _ & _ & Hsv & _).
  rewrite Hst, Hsv, Hc.
  split; [done|]. split; [done|]. split; [done|].
  split; [|by apply call_reset_ok; [apply current_sound|]].
  change (timers (call_reset current FromSettingTab w1))
    with (timers (resetIdleTimer w1)).
  destruct (autoCenterEnabled w && (0 <? value)) eqn:Hcond.
  - apply andb_prop in Hcond as [Hen Hv].
    destruct (resetIdleTimer_armed w1) as (Ht & _); [done | done | cbn; lia |].
    exact Ht.
  - by destruct (resetIdleTimer_idle w1 Hok1 Hcond).
Qed.

Lemma slider_change_takes_effect_witness :
  let w := onload current 0 1 {| idleTimeoutMs := 60000 |} in
  timers_ok w ∧
  timers (run current w [SliderChange 0; Elapse 20; SaveDone]) = [] ∧
  timers (run current w [SliderChange 3000; Elapse 20; SaveDone]) =
    [{| handle := 2; due := 3020 |}].
Proof.
  cbn zeta.
  assert (timers_ok (onload current 0 1 {| idleTimeoutMs := 60000 |})) as Hok
    by (split; reflexivity).
  split; [exact Hok|]. split.
  - destruct (slider_change_takes_effect _ 0 20%N Hok) as (_ & _ & _ & H & _);
      [reflexivity | reflexivity |]. exact H.
  - destruct (slider_change_takes_effect _ 3000 20%N Hok) as (_ & _ & _ & H & _);
      [reflexivity | reflexivity |]. exact H.
Defined.

Lemma run_app (b : Build) (w : World) (es1 es2 : list Event) :
  run b w (es1 ++ es2) = run b (run b w es1) es2.
Proof. unfold run. apply foldl_app. Qed.

(** During a burst of a debounced signal whose gaps are shorter than the
    debounce delay, [resetIdleTimer] is not called and the idle timer is not
    touched. *)
Lemma burst_defers (b : Build) (s : Signal) (gaps : list N) (w : World) :
  wiring b s = Some Debounced → loaded w = true →
  Forall (λ g, Z.of_N g < debounce_delay b) gaps →
  let w1 := run b w (burst s gaps) in
  resets w1 = resets w ∧ timers w1 = timers w ∧ loaded w1 = true ∧
  scrolls w1 = scrolls w ∧ idleTimeout w1 = idleTimeout w.
Proof.
  intros Hw Hl Hg. revert w Hl.
  induction Hg as [|g gaps Hlt _ IH]; intros w Hl; [done|].
  cbn zeta.
  change (burst s (g :: gaps))
    with ([Activity s; Elapse g; DebounceFire] ++ burst s gaps).
  rewrite run_app.
  assert (run b w [Activity s; Elapse g; DebounceFire] =
          set_clock (clock w + Z.of_N g) (debounced_call b w)) as ->.
  { cbn [run foldl step]. rewrite Hl, Hw.
    unfold debounced_call, set_debouncer, set_clock. cbn [debouncer clock].
    by replace (clock w + debounce_delay b <=? clock w + Z.of_N g)
      with false by lia. }
  by apply (IH (set_clock (clock w + Z.of_N g) (debounced_call b w))).
Qed.

(** X18.  Debouncing as the user meets it (pointer moves in revision 0.1.1,
    edits in the last revision): while the signal recurs with gaps shorter
    than 500 ms, [resetIdleTimer] is not called and the idle timer runs on
    untouched; once 500 ms or more pass after the last signal, one call is
    made, at the moment the host delivers the debouncer's timer. *)
Theorem burst_then_pause (b : Build) (s : Signal) (gaps : list N) (dt : N)
    (w : World) :
  (b = V011.build ∧ s = MouseMove) ∨ (b = current ∧ s = EditorChange) →
  loaded w = true → Forall (λ g, (g < 500)%N) gaps → (500 ≤ dt)%N →
  let w1 := run b w (burst s gaps) in
  let w2 := run b w1 [Activity s; Elapse dt; DebounceFire] in
  resets w1 = resets w ∧ timers w1 = timers w ∧ scrolls w1 = scrolls w ∧
  resets w2 = (clock w2, FromDebounce) :: resets w ∧ debouncer w2 = None.
Proof.
  intros Hbs Hl Hg Hdt w1 w2.
  assert (reset_sound b ∧ wiring b s = Some Debounced ∧ debounce_delay b = 500)
    as (Hs & Hw & Hd)
    by (destruct Hbs as [[-> ->] | [-> ->]];
        (split; [apply V011_sound || apply current_sound | by split])).
  destruct (burst_defers b s gaps w Hw Hl) as (Hr & Ht & Hl1 & Hsc & _).
  { eapply Forall_impl; [exact Hg|]. intros g Hlt. cbn in Hlt. lia. }
  fold w1 in Hr, Ht, Hl1, Hsc.
  split; [done|]. split; [done|]. split; [done|].
  set (wa := set_clock (clock w1 + Z.of_N dt) (debounced_call b w1)).
  assert (step b w1 (Activity s) = debounced_call b w1) as H1
    by (cbn [step]; by rewrite Hl1, Hw).
  assert (step b wa DebounceFire =
          call_reset b FromDebounce (set_debouncer None wa)) as H3.
  { cbn [step].
    change (debouncer wa) with (Some (clock w1 + debounce_delay b)).
    change (clock wa) with (clock w1 + Z.of_N dt). cbn iota.
    by replace (clock w1 + debounce_delay b <=? clock w1 + Z.of_N dt)
      with true by lia. }
  assert (w2 = call_reset b FromDebounce (set_debouncer None wa)) as ->
    by (subst w2; unfold run; cbn [foldl]; by rewrite H1).
  destruct (call_reset_frame b Hs FromDebounce (set_debouncer None wa))
    as (Hc & _ & _ & Hdb & _ & _ & _ & Hrs).
  rewrite Hrs, Hc, Hdb. split; [|done].
  change (resets (set_debouncer None wa)) with (resets w1). by rewrite Hr.
Qed.

Lemma burst_then_pause_witness :
  let w := onload current 0 1 {| idleTimeoutMs := 60000 |} in
  loaded w = true ∧
  resets (run current
            (run current w (burst EditorChange [100; 200; 499]%N))
            [Activity EditorChange; Elapse 500; DebounceFire]) =
    [(1299, FromDebounce); (0, FromLoad)].
Proof.
  cbn zeta. split; [reflexivity|].
  destruct (burst_then_pause current EditorChange [100; 200; 499]%N 500%N
              (onload current 0 1 {| idleTimeoutMs := 60000 |}))
    as (_ & _ & _ & H & _).
  - by right.
  - reflexivity.
  - repeat constructor.
  - discriminate.
  - exact H.
Defined.

(** X19.  The toggle command flips the flag and applies it at once: turned
    off, no timer is left and [idleTimeout] is [null]; turned on (with a
    timeout above 0), one timer is due [idleTimeoutMs] from now.  Two toggles
    in a row restore the flag, leave the settings alone, and as to what is
    due they amount to one call of [resetIdleTimer]. *)
Theorem toggle_command_spec (w : World) :
  timers_ok w → loaded w = true →
  let T := idleTimeoutMs (settings w) in
  let w1 := step current w ToggleCommand in
  let w2 := step current w1 ToggleCommand in
  autoCenterEnabled w1 = negb (autoCenterEnabled w) ∧
  (autoCenterEnabled w = true → timers w1 = [] ∧ idleTimeout w1 = None) ∧
  (autoCenterEnabled w = false → 0 < T →
     timers w1 = [{| handle := next_handle w; due := clock w + T |}]) ∧
  autoCenterEnabled w2 = autoCenterEnabled w ∧ settings w2 = settings w ∧
  due <$> timers w2 = due <$> timers (resetIdleTimer w).
Proof.
  intros Hok Hl T w1 w2.
  set (wf := set_autoCenterEnabled (negb (autoCenterEnabled w)) w).
  assert (w1 = call_reset current FromToggle wf) as Hw1
    by (subst w1; cbn [step]; by rewrite Hl).
  assert (timers_ok wf) as Hokf by exact Hok.
  destruct (call_reset_frame current current_sound FromToggle wf)
    as (Hc1 & Hst1 & Hen1 & _ & _ & Hl1 & _).
  rewrite <- Hw1 in Hc1, Hst1, Hen1, Hl1.
  assert (timers w1 = timers (resetIdleTimer wf) ∧
          idleTimeout w1 = idleTimeout (resetIdleTimer wf)) as [Ht1 Hi1]
    by (by rewrite Hw1).
  assert (timers_ok w1) as Hok1
    by (rewrite Hw1; apply call_reset_ok; [apply current_sound | done]).
  split; [by rewrite Hen1|].
  split.
  { intros Hen. rewrite Ht1, Hi1. apply resetIdleTimer_idle; [done|].
    cbn. by rewrite Hen. }
  split.
  { intros Hen HT. rewrite Ht1.
    destruct (resetIdleTimer_armed wf) as (Ht & _); [done | | done | done].
    cbn. by rewrite Hen. }
  set (wg := set_autoCenterEnabled (negb (autoCenterEnabled w1)) w1).
  assert (loaded w1 = true) as Hl1' by (rewrite Hl1; exact Hl).
  assert (w2 = call_reset current FromToggle wg) as Hw2
    by (subst w2; cbn [step]; by rewrite Hl1').
  assert (timers_ok wg) as Hokg by exact Hok1.
  destruct (call_reset_frame current current_sound FromToggle wg)
    as (_ & Hst2 & Hen2 & _).
  rewrite <- Hw2 in Hst2, Hen2.
  assert (autoCenterEnabled wg = autoCenterEnabled w) as Heng
    by (unfold wg; cbn [set_autoCenterEnabled autoCenterEnabled];
        rewrite Hen1; unfold wf; cbn [set_autoCenterEnabled autoCenterEnabled];
        by rewrite negb_involutive).
  split; [by rewrite Hen2|]. split; [by rewrite Hst2|].
  assert (timers w2 = timers (resetIdleTimer wg)) as -> by (by rewrite Hw2).
  assert (settings wg = settings w) as Hstg
    by (unfold wg; cbn [set_autoCenterEnabled settings]; exact Hst1).
  assert (clock wg = clock w) as Hcg
    by (unfold wg; cbn [set_autoCenterEnabled clock]; exact Hc1).
  destruct (autoCenterEnabled w && (0 <? T)) eqn:Hcond.
  - apply andb_prop in Hcond as [Hen HT].
    destruct (resetIdleTimer_armed wg) as (Htg & _);
      [done | by rewrite Heng | rewrite Hstg; subst T; lia |].
    destruct (resetIdleTimer_armed w) as (Htw & _); [done | done | subst T; lia |].
    by rewrite Htg, Htw, Hcg, Hstg.
  - destruct (resetIdleTimer_idle wg) as [Htg _];
      [done | rewrite Heng, Hstg; exact Hcond |].
    destruct (resetIdleTimer_idle w Hok Hcond) as [Htw _].
    by rewrite Htg, Htw.
Qed.

Lemma toggle_command_spec_witness :
  let w := onload current 0 1 {| idleTimeoutMs := 1000 |} in
  timers_ok w ∧
  timers (step current w ToggleCommand) = [] ∧
  autoCenterEnabled (step current (step current w ToggleCommand) ToggleCommand)
    = true.
Proof.
  cbn zeta.
  assert (timers_ok (onload current 0 1 {| idleTimeoutMs := 1000 |})) as Hok
    by (split; reflexivity).
  split; [exact Hok|].
  destruct (toggle_command_spec _ Hok) as (_ & H1 & _ & H2 & _); [reflexivity|].
  split; [by apply H1 | exact H2].
Defined.

Section Counting.

Variable b : Build.
Hypothesis Hb : reset_sound b.

Lemma step_counts w e :
  timers_ok w →
  (length (scrolls w) + length (timers w) ≤ length (resets w))%nat →
  (length (scrolls (step b w e)) + length (timers (step b w e))
     ≤ length (resets (step b w e)))%nat.
Proof.
  intros Hok Hle.
  assert (∀ o w0, timers_ok w0 →
            (length (scrolls w0) + length (timers w0) ≤ length (resets w0))%nat →
            (length (scrolls (call_reset b o w0)) +
             length (timers (call_reset b o w0))
               ≤ length (resets (call_reset b o w0)))%nat) as Hcall.
  { intros o w0 Hok0 Hle0.
    destruct (call_reset_frame b Hb o w0) as (_ & _ & _ & _ & _ & _ & Hs & Hr).
    pose proof (timers_ok_length _ (call_reset_ok b Hb o w0 Hok0)) as Hone.
    rewrite Hs, Hr. cbn [length]. lia. }
  destruct e as [dt|s| | | |v| |]; cbn [step].
  - done.
  - destruct (loaded w); [|done].
    destruct (wiring b s) as [[|]|]; [by apply Hcall | done | done].
  - destruct (debouncer w) as [d|]; [|done].
    destruct (d <=? clock w); [|done]. by apply Hcall.
  - pose proof Hok as Hok'. unfold timers_ok in Hok'.
    destruct (timers w) as [|t [|t' ts]] eqn:Et;
      [cbn; rewrite ?Et; cbn in *; lia | | done].
    rewrite pop_due_single. destruct (due t <=? clock w).
    + cbn. cbn in Hle. lia.
    + rewrite ?Et. cbn in *. lia.
  - destruct (loaded w); [|done]. by apply Hcall.
  - destruct (loaded w && setting_tab b); done.
  - destruct (saving w); [done|]. by apply Hcall.
  - destruct (loaded w); [|done].
    destruct (clear_idleTimeout_frame w) as (_ & _ & _ & _ & _ & _ & _ & _ & Hs & Hr).
    cbn. unfold onunload. rewrite Hs, Hr, clear_idleTimeout_timers by done.
    cbn. lia.
Qed.

Lemma run_counts es w :
  timers_ok w →
  (length (scrolls w) + length (timers w) ≤ length (resets w))%nat →
  (length (scrolls (run b w es)) + length (timers (run b w es))
     ≤ length (resets (run b w es)))%nat.
Proof.
  revert w. induction es as [|e es IH]; intros w Hok Hle; [done|].
  cbn [run foldl]. apply IH; [by apply step_timers_ok | by apply step_counts].
Qed.

End Counting.

(** X20.  In both revisions and in every state reached from [onload], the
    centering callback has run at most once per call of [resetIdleTimer]:
    the number of runs so far plus the number of pending idle timers never
    exceeds the number of calls. *)
Theorem callbacks_bounded_by_resets (b : Build) (t0 : Z) (h0 : positive)
    (st : EditHelperPluginSettings) (es : list Event) :
  b = V011.build ∨ b = current →
  let w := run b (onload b t0 h0 st) es in
  (length (scrolls w) + length (timers w) ≤ length (resets w))%nat.
Proof.
  intros Hbuild w.
  assert (reset_sound b) as Hs
    by (destruct Hbuild as [-> | ->]; [apply V011_sound | apply current_sound]).
  subst w. apply (run_counts b Hs); [by apply onload_timers_ok|].
  destruct (call_reset_frame b Hs FromLoad (fresh t0 h0 st))
    as (_ & _ & _ & _ & _ & _ & Hsc & Hr).
  pose proof (timers_ok_length _ (onload_timers_ok b Hs t0 h0 st)) as Hone.
  unfold onload in *. rewrite Hsc, Hr. cbn [length fresh scrolls resets]. lia.
Qed.

Lemma callbacks_bounded_by_resets_witness :
  let w := run current (onload current 0 1 {| idleTimeoutMs := 1000 |})
             [Elapse 1000; TimerFire; TimerFire; ToggleCommand] in
  length (scrolls w) = 1%nat ∧
  (length (scrolls w) + length (timers w) ≤ length (resets w))%nat.
Proof.
  cbn zeta. split; [reflexivity|].
  apply (callbacks_bounded_by_resets current 0 1 {| idleTimeoutMs := 1000 |}
           [Elapse 1000; TimerFire; TimerFire; ToggleCommand]).
  by right.
Defined.

Lemma call_reset_due_ok (o : Origin) (w : World) :
  timers_ok w → due_ok (call_reset current o w).
Proof.
  intros Hok t Hin.
  destruct (call_reset_frame current current_sound o w)
    as (Hc & Hst & _ & _ & _ & _ & _ & Hr).
  change (timers (call_reset current o w)) with (timers (resetIdleTimer w)) in Hin.
  exists (clock w), o, (resets w). rewrite Hr, Hc, Hst.
  split; [done|]. split; [lia|]. intros _.
  destruct (autoCenterEnabled w && (0 <? idleTimeoutMs (settings w))) eqn:Hcond.
  - apply andb_prop in Hcond as [Hen HT].
    destruct (resetIdleTimer_armed w) as (Ht & _); [done | done | lia |].
    rewrite Ht in Hin. apply list_elem_of_singleton in Hin. subst t.
    split; [done | lia].
  - destruct (resetIdleTimer_idle w Hok Hcond) as [Ht _]. rewrite Ht in Hin.
    by apply elem_of_nil in Hin.
Qed.

Lemma step_due_ok (w : World) (e : Event) :
  timers_ok w → due_ok w → due_ok (step current w e).
Proof.
  intros Hok Hd. destruct e as [dt|s| | | |v| |]; cbn [step].
  - intros t Hin. destruct (Hd t Hin) as (r & o & rest & Hr & Hle & Hdue).
    exists r, o, rest. split; [done|]. split; [cbn; lia | done].
  - destruct (loaded w); [|done]. by destruct s.
  - destruct (debouncer w) as [d|]; [|done].
    destruct (d <=? clock w); [|done]. by apply call_reset_due_ok.
  - pose proof Hok as Hok'. unfold timers_ok in Hok'.
    destruct (timers w) as [|t [|t' ts]] eqn:Et; [done| |done].
    rewrite pop_due_single. destruct (due t <=? clock w); [|done].
    intros t' Hin. by apply elem_of_nil in Hin.
  - destruct (loaded w); [|done]. by apply call_reset_due_ok.
  - destruct (loaded w && setting_tab current); [|done].
    intros t Hin. destruct (Hd t Hin) as (r & o & rest & Hr & Hle & _).
    exists r, o, rest. split; [done|]. split; [done|]. by intros ?.
  - destruct (saving w); [done|]. by apply call_reset_due_ok.
  - destruct (loaded w); [|done]. intros t Hin. cbn in Hin.
    unfold onunload in Hin. rewrite clear_idleTimeout_timers in Hin by done.
    by apply elem_of_nil in Hin.
Qed.

Lemma run_due_ok (es : list Event) (w : World) :
  timers_ok w → due_ok w → due_ok (run current w es).
Proof.
  revert w. induction es as [|e es IH]; intros w Hok Hd; [done|].
  cbn [run foldl]. apply IH.
  - apply step_timers_ok; [apply current_sound | done].
  - by apply step_due_ok.
Qed.

Lemma pop_due_elem (now : Z) (ts : list Timer) t rest :
  pop_due now ts = Some (t, rest) → t ∈ ts ∧ due t <= now.
Proof.
  revert t rest. induction ts as [|t0 ts IH]; intros t rest; [done|].
  cbn [pop_due]. destruct (due t0 <=? now) eqn:E.
  - intros [= <- <-]. split; [by left | lia].
  - destruct (pop_due now ts) as [[t' r]|]; [|done].
    intros [= <- <-]. destruct (IH t' r eq_refl) as [Hin Hle].
    split; [by right | done].
Qed.

(** X21.  In the last revision, in every state reached from [onload], a
    pending idle timer stems from the newest call of [resetIdleTimer] and,
    when no change of the slider is waiting for [saveSettings], is due
    exactly [idleTimeoutMs] after that call.  So a delivery that runs the
    callback in such a state comes at least [idleTimeoutMs] after the newest
    call of [resetIdleTimer]. *)
Theorem callback_not_before_timeout (t0 : Z) (h0 : positive)
    (st : EditHelperPluginSettings) (es : list Event) :
  let w := run current (onload current t0 h0 st) es in
  due_ok w ∧
  (saving w = 0%nat → scrolls (step current w TimerFire) ≠ scrolls w →
   ∃ r o rest, resets w = (r, o) :: rest ∧
     r + idleTimeoutMs (settings w) <= clock w ∧
     0 < idleTimeoutMs (settings w)).
Proof.
  intros w.
  assert (due_ok w) as Hd.
  { apply run_due_ok; [apply onload_timers_ok, current_sound|].
    apply call_reset_due_ok. by unfold timers_ok. }
  split; [exact Hd|]. intros Hs Hfire. cbn [step] in Hfire.
  destruct (pop_due (clock w) (timers w)) as [[t rest]|] eqn:Ep; [|done].
  destruct (pop_due_elem _ _ _ _ Ep) as [Hin Hle].
  destruct (Hd t Hin) as (r & o & rest' & Hr & _ & Hdue).
  destruct (Hdue Hs) as [Hdue' HT].
  exists r, o, rest'. split; [done|]. split; [lia | done].
Qed.

Lemma callback_not_before_timeout_witness :
  let w := run current (onload current 0 1 {| idleTimeoutMs := 1000 |})
             [Elapse 400; ToggleCommand; ToggleCommand; Elapse 1000] in
  saving w = 0%nat ∧
  ∃ r o rest, resets w = (r, o) :: rest ∧
    r + idleTimeoutMs (settings w) <= clock w.
Proof.
  cbn zeta. split; [reflexivity|].
  destruct (callback_not_before_timeout 0 1 {| idleTimeoutMs := 1000 |}
              [Elapse 400; ToggleCommand; ToggleCommand; Elapse 1000])
    as [_ H].
  destruct H as (r & o & rest & Hr & Hle & _).
  - reflexivity.
  - vm_compute. discriminate.
  - exists r, o, rest. split; [exact Hr | exact Hle].
Defined.
